(** * binsnitch: the registry of tracked files, its classifier and its recorder

    A shallow embedding of [binsnitch.py].  The program keeps a registry of
    tracked files in [binsnitch_data/db.json] (a JSON list of records
    [{"path": ..., "sha256": [...]}]), a copy of it in the global
    [cached_db], and reports through [logging.info].  Functions that read or
    write the globals and the files are embedded in a state-and-exception
    monad over the record [state]; loops with an early [return] keep their
    shape through [for_in]. *)

From stdpp Require Import base option list strings gmap.
From Stdlib Require Import ZArith Ascii String.

Local Open Scope string_scope.
Local Open Scope list_scope.

(** * Data model *)

(** The three status constants of the module. *)
Inductive file_status := FILE_KNOWN_UNTOUCHED | FILE_KNOWN_TOUCHED | FILE_UNKNOWN.

(** One record of [db.json]: [db_file["path"]] and the list
    [db_file["sha256"]], oldest digest first. *)
Record db_record := DbFile { path : string; sha256 : list string }.

(** The dictionary [file_info] handed to the functions: [file_info["path"]]
    and the single digest [file_info["sha256"]]. *)
Record file_record := FileInfo { fi_path : string; fi_sha256 : string }.

(** The namespace returned by [args_parser]. *)
Record namespace := Args {
  dir : string;
  verbose : bool;
  singlepass : bool;
  all : bool;
  new : bool;
  baseline : bool;
  wipe : bool
}.

(** The two files of the directory [binsnitch_data]; [None] is a file that
    does not exist.  The contents of [db.json] are taken as already parsed,
    those of [alerts.log] as its lines: a [db.json] that exists holds a
    well-formed registry, and [binsnitch_data], when it exists, is a
    directory.  A [db.json] that is empty or is not the JSON of a registry
    has no counterpart here. *)
Record data_files := DataFiles {
  db_json : option (list db_record);
  alerts_log : option (list string)
}.

(** Dispositions of SIGINT: the two constants of [signal], Python's own
    [default_int_handler] and the [partial(signal_handler, observer)] that
    [scan] installs. *)
Inductive handler := SIG_DFL | SIG_IGN | default_int_handler | signal_handler.

(** The exceptions the embedded functions can raise. [SystemExit code] is
    what [exit()] and [sys.exit] raise. *)
Inductive exn :=
  | TypeError
  | ValueError
  | FileNotFoundError
  | SystemExit (code : option Z).

(** What [print] has written: a text, or the [str(sys.exc_info())] of
    [refresh_cache]. *)
Inductive out := Text (s : string) | ExcInfo (e : exn).

(** The world the program runs in.
    - [cached_db]: the global, [None] as at import time;
    - [binsnitch_data]: the data directory, [None] when it does not exist;
    - [logged]: the messages handed to [logging.info], oldest first (the
      alerts; the configuration that would route them to [alerts.log] is
      commented out in [main], so they are kept apart from that file);
    - [stdout]: what [print] wrote;
    - [db_writes]: how many times [db.json] was rewritten by [write_to_db];
    - [sigint]: the current disposition of SIGINT;
    - [is_dir]: [os.path.isdir];
    - [watches], [observer_started]: the watchdog observer. *)
Record state := State {
  cached_db : option (list db_record);
  binsnitch_data : option data_files;
  logged : list string;
  stdout : list out;
  db_writes : nat;
  sigint : handler;
  is_dir : string → bool;
  watches : list string;
  observer_started : bool
}.

Definition set_cached_db (v : option (list db_record)) (st : state) : state :=
  State v (binsnitch_data st) (logged st) (stdout st) (db_writes st)
        (sigint st) (is_dir st) (watches st) (observer_started st).

Definition set_binsnitch_data (v : option data_files) (st : state) : state :=
  State (cached_db st) v (logged st) (stdout st) (db_writes st)
        (sigint st) (is_dir st) (watches st) (observer_started st).

Definition set_logged (v : list string) (st : state) : state :=
  State (cached_db st) (binsnitch_data st) v (stdout st) (db_writes st)
        (sigint st) (is_dir st) (watches st) (observer_started st).

Definition set_stdout (v : list out) (st : state) : state :=
  State (cached_db st) (binsnitch_data st) (logged st) v (db_writes st)
        (sigint st) (is_dir st) (watches st) (observer_started st).

Definition set_db_writes (v : nat) (st : state) : state :=
  State (cached_db st) (binsnitch_data st) (logged st) (stdout st) v
        (sigint st) (is_dir st) (watches st) (observer_started st).

Definition set_sigint (v : handler) (st : state) : state :=
  State (cached_db st) (binsnitch_data st) (logged st) (stdout st)
        (db_writes st) v (is_dir st) (watches st) (observer_started st).

Definition set_watches (v : list string) (st : state) : state :=
  State (cached_db st) (binsnitch_data st) (logged st) (stdout st)
        (db_writes st) (sigint st) (is_dir st) v (observer_started st).

Definition set_observer_started (v : bool) (st : state) : state :=
  State (cached_db st) (binsnitch_data st) (logged st) (stdout st)
        (db_writes st) (sigint st) (is_dir st) (watches st) v.

(** The registry persisted in [db.json], when the file is there. *)
Definition persisted (st : state) : option (list db_record) :=
  match binsnitch_data st with
  | Some files => db_json files
  | None => None
  end.

(** The lines of [alerts.log], when the file is there. *)
Definition alert_file (st : state) : option (list string) :=
  match binsnitch_data st with
  | Some files => alerts_log files
  | None => None
  end.

(** * The monad of the embedding *)

Inductive outcome (A : Type) := Ok (a : A) | Raise (e : exn).
Arguments Ok {A} a.
Arguments Raise {A} e.

Definition M (A : Type) : Type := state → outcome A * state.

Definition ret {A} (a : A) : M A := λ st, (Ok a, st).

Definition bind {A B} (m : M A) (k : A → M B) : M B := λ st,
  match m st with
  | (Ok a, st') => k a st'
  | (Raise e, st') => (Raise e, st')
  end.

Definition raise {A} (e : exn) : M A := λ st, (Raise e, st).
Definition get : M state := λ st, (Ok st, st).
Definition modify (f : state → state) : M unit := λ st, (Ok tt, f st).

(** [try: m except: h], for the handlers that catch every exception the
    body can raise here. *)
Definition try_except {A} (m : M A) (h : exn → M A) : M A := λ st,
  match m st with
  | (Ok a, st') => (Ok a, st')
  | (Raise e, st') => h e st'
  end.

Declare Scope py_scope.
Delimit Scope py_scope with py.
Notation "x <- m ;; k" := (bind m (λ x, k))
  (at level 100, m at next level, right associativity) : py_scope.
Notation "m ;;; k" := (bind m (λ _, k))
  (at level 100, right associativity) : py_scope.
Local Open Scope py_scope.

(** The state a computation leaves, whether it returned or raised. *)
Definition exec {A} (m : M A) (st : state) : state := snd (m st).
(** Its result. *)
Definition result {A} (m : M A) (st : state) : outcome A := fst (m st).

(** [when c m]: an [if] without [else]. *)
Definition when (c : bool) (m : M unit) : M unit := if c then m else ret tt.

(** * Loops *)

(** What the body of a [for] loop does to the loop: go on with the loop
    variables [s], or [return r] out of the enclosing function. *)
Inductive ctl (S R : Type) := Next (s : S) | Return (r : R).
Arguments Next {S R} s.
Arguments Return {S R} r.

(** [for x in l: body], with the loop-carried variables in [s]. *)
Fixpoint for_in {A S R} (body : A → S → ctl S R) (l : list A) (s : S) : ctl S R :=
  match l with
  | [] => Next s
  | x :: l' =>
      match body x s with
      | Next s' => for_in body l' s'
      | Return r => Return r
      end
  end.

(** [for x in l: body] where the body mutates the element [x] in place and
    has effects: the list of the mutated elements, in order. *)
Fixpoint for_update {A} (body : A → M A) (l : list A) : M (list A) :=
  match l with
  | [] => ret []
  | x :: l' =>
      x' <- body x;;
      l'' <- for_update body l';;
      ret (x' :: l'')
  end.

(** * Utilities of the module *)

(** The builtin [logging.info]: the message goes to the logging facility. *)
Definition logging_info (msg : string) : M unit :=
  modify (λ st, set_logged (logged st ++ [msg]) st).

(** The builtin [print]. *)
Definition print (o : out) : M unit :=
  modify (λ st, set_stdout (stdout st ++ [o]) st).

(** [json.load(open("binsnitch_data/db.json"))]. *)
Definition load_db_json : M (list db_record) :=
  st <- get;;
  match persisted st with
  | Some db_data => ret db_data
  | None => raise FileNotFoundError
  end.

(** [json.dump(db_data, open("binsnitch_data/db.json", 'w'), ...)]: needs
    the directory, replaces the contents of the file. *)
Definition dump_db_json (db_data : list db_record) : M unit :=
  st <- get;;
  match binsnitch_data st with
  | Some files =>
      modify (set_binsnitch_data (Some (DataFiles (Some db_data) (alerts_log files))))
  | None => raise FileNotFoundError
  end.

(** The body of the loop of [check_file_status]; [known_path] is the loop
    variable. *)
Definition check_file_status_body (file_info : file_record)
    (db_file : db_record) (known_path : bool) : ctl bool file_status :=
  if bool_decide (path db_file = fi_path file_info) then
    (* known_path = True *)
    if bool_decide (fi_sha256 file_info ∈ sha256 db_file)
    then Return FILE_KNOWN_UNTOUCHED
    else Return FILE_KNOWN_TOUCHED
  else Next known_path.

(** [check_file_status] on a given value of [cached_db]; [None] is Python's
    [None], returned when the function falls off its end. *)
Definition classify (cached : list db_record) (file_info : file_record) : option file_status :=
  match for_in (check_file_status_body file_info) cached false with
  | Return r => Some r
  | Next known_path => if negb known_path then Some FILE_UNKNOWN else None
  end.

(** [check_file_status(file_info)]: iterating over a [cached_db] that is
    still [None] raises [TypeError]. *)
Definition check_file_status (file_info : file_record) : M (option file_status) :=
  st <- get;;
  match cached_db st with
  | Some cached => ret (classify cached file_info)
  | None => raise TypeError
  end.

Global Instance status_eq_dec : EqDecision file_status.
Proof. solve_decision. Defined.

Global Instance db_record_eq_dec : EqDecision db_record.
Proof. solve_decision. Defined.

Global Instance handler_eq_dec : EqDecision handler.
Proof. solve_decision. Defined.

(** [signal.signal(signal.SIGINT, h)]: installs [h], returns the previous
    disposition. *)
Definition signal_signal (h : handler) : M handler :=
  st <- get;;
  modify (set_sigint h);;;
  ret (sigint st).

(** The body of the loop of [add_alert_do_db]: the record [db_file] after
    the iteration (its digest list is appended to in place), and the
    messages logged on the way. *)
Definition add_alert_do_db_body (file_info : file_record) (status : file_status)
    (db_file : db_record) : M db_record :=
  if bool_decide (path db_file = fi_path file_info) then
    let db_file :=
      if bool_decide (fi_sha256 file_info ∉ sha256 db_file)
      then DbFile (path db_file) (sha256 db_file ++ [fi_sha256 file_info])
      else db_file in
    when (bool_decide (status = FILE_UNKNOWN))
      (logging_info ("New file detected: " +:+ path db_file +:+
                     " - hash: " +:+ fi_sha256 file_info));;;
    when (bool_decide (status = FILE_KNOWN_TOUCHED))
      (logging_info ("Modified file detected: " +:+ path db_file +:+
                     " - new hash: " +:+ fi_sha256 file_info));;;
    ret db_file
  else ret db_file.

(** [write_to_db(db_data)]: SIGINT is ignored while [db.json] is rewritten,
    then the previous disposition is put back. *)
Definition write_to_db (db_data : list db_record) : M unit :=
  s <- signal_signal SIG_IGN;;
  dump_db_json db_data;;;
  modify (λ st, set_db_writes (S (db_writes st)) st);;;
  signal_signal s;;;
  ret tt.

(** [add_alert_do_db(file_info, status)]. *)
Definition add_alert_do_db (file_info : file_record) (status : file_status) : M unit :=
  db_data <- load_db_json;;
  db_data <- for_update (add_alert_do_db_body file_info status) db_data;;
  modify (set_cached_db (Some db_data));;;
  write_to_db db_data.

(** [add_file_to_db(file_info)]. *)
Definition add_file_to_db (file_info : file_record) : M unit :=
  db_data <- load_db_json;;
  let file_info_to_add := DbFile (fi_path file_info) [fi_sha256 file_info] in
  let db_data := db_data ++ [file_info_to_add] in
  modify (set_cached_db (Some db_data));;;
  write_to_db db_data.

(** [refresh_cache()]: any exception of the load is printed, and
    [cached_db] keeps its value. *)
Definition refresh_cache : M unit :=
  try_except
    (db_data <- load_db_json;; modify (set_cached_db (Some db_data)))
    (λ exc, print (ExcInfo exc)).

(** [os.remove("binsnitch_data/db.json")]. *)
Definition os_remove_db_json : M unit :=
  st <- get;;
  match binsnitch_data st with
  | Some (DataFiles (Some _) alerts) =>
      modify (set_binsnitch_data (Some (DataFiles None alerts)))
  | _ => raise FileNotFoundError
  end.

(** [os.remove("binsnitch_data/alerts.log")]. *)
Definition os_remove_alerts_log : M unit :=
  st <- get;;
  match binsnitch_data st with
  | Some (DataFiles db (Some _)) =>
      modify (set_binsnitch_data (Some (DataFiles db None)))
  | _ => raise FileNotFoundError
  end.

(** [with suppress(IOError): m]: the block stops at the first exception,
    which is swallowed. *)
Definition suppress (m : M unit) : M unit := try_except m (λ _, ret tt).

(** [if not os.path.exists("./binsnitch_data"): os.makedirs(...)]. *)
Definition ensure_data_dir : M unit :=
  st <- get;;
  match binsnitch_data st with
  | Some _ => ret tt
  | None => modify (set_binsnitch_data (Some (DataFiles None None)))
  end.

(** [file = open("binsnitch_data/db.json", 'r')], kept for its exception. *)
Definition open_db_json_r : M unit :=
  st <- get;;
  match persisted st with
  | Some _ => ret tt
  | None => raise FileNotFoundError
  end.

(** [file = open("binsnitch_data/alerts.log", 'r')]. *)
Definition open_alerts_log_r : M unit :=
  st <- get;;
  match alert_file st with
  | Some _ => ret tt
  | None => raise FileNotFoundError
  end.

(** [open("binsnitch_data/alerts.log", 'a').close()]: creates the file when
    it is missing, leaves its lines otherwise. *)
Definition touch_alerts_log : M unit :=
  st <- get;;
  match binsnitch_data st with
  | Some (DataFiles db None) =>
      modify (set_binsnitch_data (Some (DataFiles db (Some []))))
  | Some _ => ret tt
  | None => raise FileNotFoundError
  end.

(** [prepare_data_files(args)]. *)
Definition prepare_data_files (args : namespace) : M unit :=
  suppress (when (wipe args) (os_remove_db_json;;; os_remove_alerts_log));;;
  ensure_data_dir;;;
  try_except open_db_json_r (λ _, dump_db_json []);;;
  try_except open_alerts_log_r (λ _, touch_alerts_log);;;
  refresh_cache.

(** The builtin [exit()], called without a status. *)
Definition exit_ : M unit := raise (SystemExit None).

(** [observer.schedule(ChangeHandler(args), args.dir, recursive=True)]. *)
Definition observer_schedule (d : string) : M unit :=
  modify (λ st, set_watches (watches st ++ [d]) st).

(** [observer.start()]. *)
Definition observer_start : M unit := modify (set_observer_started true).

(** [observer.stop()]. *)
Definition observer_stop : M unit := modify (set_observer_started false).

(** [signal_handler(observer, signal, frame)], the function behind the
    disposition [signal_handler]. *)
Definition run_signal_handler : M unit :=
  observer_stop;;;
  raise (SystemExit (Some 0%Z)).

(** [observer.join()]: the main thread waits for the observer thread, which
    runs until [observer.stop()], and nothing but [signal_handler], installed
    by the statement before, calls it.  The wait is left by the interrupt of
    the operator, through [signal_handler]; this is the run the embedding
    gives.  Without an interrupt the source waits for ever and has no
    outcome. *)
Definition observer_join : M unit := run_signal_handler.

(** [scan(args)]. *)
Definition scan (args : namespace) : M unit :=
  logging_info ("Scanning " +:+ dir args +:+
                " for new and modified files, this can take a long time");;;
  st <- get;;
  when (negb (is_dir st (dir args)))
    (print (Text ("Error: " +:+ dir args +:+ " could not be read, exiting."));;;
     exit_);;;
  observer_schedule (dir args);;;
  observer_start;;;
  signal_signal signal_handler;;;
  observer_join.

(** [main()], from the namespace [args_parser()] returned: the call of
    [prepare_data_files] and the logging configuration are commented out in
    the source, [scan] is all that runs. *)
Definition main (args : namespace) : M unit := scan args.

(** The exit status of the interpreter for the outcome of [main()]:
    [SystemExit] without a code is status 0, any other exception that is
    not caught is status 1. *)
Definition exit_status (o : outcome unit) : Z :=
  match o with
  | Ok _ => 0
  | Raise (SystemExit None) => 0
  | Raise (SystemExit (Some n)) => n
  | Raise _ => 1
  end.

(** * The flush of [write_to_db] under interrupts

    [write_to_db] again, statement by statement, with SIGINT arriving at any
    point between two steps.  [json.dump] writes the document piece by
    piece ([fp.write(chunk)] for every chunk of the encoder), so the file
    holds a prefix of the document until the last piece is out.  An
    interrupt follows the disposition in force: [SIG_IGN] discards it, every
    other one ends the run ([KeyboardInterrupt], [sys.exit(0)] of
    [signal_handler], or the default action). *)
Module Flush.

(** The steps of [write_to_db], [chunks] being the pieces [json.dump]
    writes for [db_data]. *)
Inductive instr :=
  | SaveAndIgnore          (* s = signal.signal(signal.SIGINT, signal.SIG_IGN) *)
  | OpenW                  (* open("binsnitch_data/db.json", 'w') *)
  | WriteChunk (c : string) (* fp.write(chunk) *)
  | RestoreSaved.          (* signal.signal(signal.SIGINT, s) *)

Definition write_to_db_steps (chunks : list string) : list instr :=
  [SaveAndIgnore; OpenW] ++ map WriteChunk chunks ++ [RestoreSaved].

(** The process: the disposition of SIGINT, the local [s], what [db.json]
    holds (the pieces written so far), whether the process still runs,
    and the steps left. *)
Record proc := Proc {
  disposition : handler;
  s : option handler;
  file : list string;
  running : bool;
  todo : list instr
}.

Definition start (h : handler) (old : list string) (chunks : list string) : proc :=
  Proc h None old true (write_to_db_steps chunks).

Definition exec_instr (i : instr) (rest : list instr) (p : proc) : proc :=
  match i with
  | SaveAndIgnore => Proc SIG_IGN (Some (disposition p)) (file p) true rest
  | OpenW => Proc (disposition p) (s p) [] true rest
  | WriteChunk c => Proc (disposition p) (s p) (file p ++ [c]) true rest
  | RestoreSaved =>
      Proc (default (disposition p) (s p)) (s p) (file p) true rest
  end.

(** What happens next: the program takes a step, or SIGINT arrives. *)
Inductive event := Step | Sigint.

Definition on_event (e : event) (p : proc) : proc :=
  if running p then
    match e with
    | Step =>
        match todo p with
        | i :: rest => exec_instr i rest p
        | [] => p
        end
    | Sigint =>
        match disposition p with
        | SIG_IGN => p
        | _ => Proc (disposition p) (s p) (file p) false (todo p)
        end
    end
  else p.

Definition run (t : list event) (p : proc) : proc :=
  foldl (λ p e, on_event e p) p t.

(** The flush is in progress: SIGINT was set to be ignored and the
    disposition was not put back yet. *)
Definition flushing (p : proc) : bool :=
  bool_decide (is_Some (s p)) && bool_decide (todo p ≠ []) && running p.

(** The run is over: every step was taken, or the process was ended. *)
Definition over (p : proc) : bool :=
  negb (running p) || bool_decide (todo p = []).

(** Where a run of [write_to_db] can be: before its first statement,
    between the first statement and the opening of the file, among the
    writes, or after its last statement. *)
Inductive phase (h : handler) (old chunks : list string) : proc → Prop :=
  | before_flush r :
      phase h old chunks (Proc h None old r (write_to_db_steps chunks))
  | ignoring :
      phase h old chunks
        (Proc SIG_IGN (Some h) old true
              (OpenW :: map WriteChunk chunks ++ [RestoreSaved]))
  | writing written rest :
      chunks = written ++ rest →
      phase h old chunks
        (Proc SIG_IGN (Some h) written true
              (map WriteChunk rest ++ [RestoreSaved]))
  | after_flush r :
      phase h old chunks (Proc h (Some h) chunks r []).

(** The reading of "deferred until the flush completes": an interrupt
    that arrives while the flush is in progress, after the events [t1],
    has ended the process whenever the run is over. *)
Definition deferred (h : handler) (old chunks : list string)
    (t1 t2 : list event) : Prop :=
  flushing (run t1 (start h old chunks)) = true →
  over (run (t1 ++ Sigint :: t2) (start h old chunks)) = true →
  running (run (t1 ++ Sigint :: t2) (start h old chunks)) = false.

End Flush.

(** * The filter *)

(** The set [dangerous_extensions] of the module. *)
Definition dangerous_extensions : gset string :=
  list_to_set
    ["DMG"; "DLL"; "ACTION"; "APK"; "APP"; "BAT"; "BIN"; "CMD"; "COM";
     "COMMAND"; "CPL"; "CSH"; "EXE"; "GADGET"; "INF1"; "INS"; "INX"; "IPA";
     "ISU"; "JOB"; "JSE"; "KSH"; "LNK"; "MSC"; "MSI"; "MSP"; "MST"; "OSX";
     "OUT"; "PAF"; "PIF"; "PRG"; "PS1"; "REG"; "RGS"; "RUN"; "SCT"; "SH";
     "SHB"; "SHS"; "U3P"; "VB"; "VBE"; "VBS"; "VBSCRIPT"; "WORKFLOW"; "WS";
     "WSF"].

(** ASCII upper case of a character and of a string. *)
Definition upper_ascii (c : Ascii.ascii) : Ascii.ascii :=
  let n := Ascii.N_of_ascii c in
  if ((97 <=? n) && (n <=? 122))%N then Ascii.ascii_of_N (n - 32) else c.

Fixpoint upper (s : string) : string :=
  match s with
  | EmptyString => EmptyString
  | String c s' => String (upper_ascii c) (upper s')
  end.

(** The loop behind [extension]: [acc] is the text after the last dot of the
    current path component, if the component has a dot so far. *)
Fixpoint extension_from (p : string) (acc : option string) : option string :=
  match p with
  | EmptyString => acc
  | String c p' =>
      if bool_decide (c = "/"%char) then extension_from p' None
      else if bool_decide (c = "."%char) then extension_from p' (Some EmptyString)
      else extension_from p' ((λ e, e +:+ String c EmptyString) <$> acc)
  end.

(** The extension of a path: the text after the last dot of its last
    component, [None] when that component has no dot. *)
Definition extension (p : string) : option string := extension_from p None.

(** Modelled from the spec: the Filter, [isRelevant(path, trackAll)].  The
    source defines the set [dangerous_extensions] and no function that uses
    it; this is the contract of the specification over that set: with
    [trackAll] every file is relevant, otherwise the files whose extension,
    in upper case, is in the set. *)
Definition isRelevant (p : string) (trackAll : bool) : bool :=
  trackAll ||
  match extension p with
  | Some e => bool_decide (upper e ∈ dangerous_extensions)
  | None => false
  end.

(** * Notions the properties are stated with *)

(** The registry on disk, empty when [db.json] is not there. *)
Definition registry (st : state) : list db_record := default [] (persisted st).

(** The digest history of a path in a registry: the digests of its first
    record, the one [check_file_status] reads; empty for a path without
    record. *)
Fixpoint history (db : list db_record) (p : string) : list string :=
  match db with
  | [] => []
  | db_file :: db' =>
      if bool_decide (path db_file = p) then sha256 db_file else history db' p
  end.

(** Path [p] is recorded with digest [d]: the registry has a record of [p],
    and the records of [p] list [d].  A registry has one record per path
    unless [add_file_to_db] was called for a path it already held. *)
Definition recorded (db : list db_record) (p d : string) : Prop :=
  p ∈ path <$> db ∧ ∀ db_file, db_file ∈ db → path db_file = p → d ∈ sha256 db_file.

(** What one iteration of the loop of [add_alert_do_db] leaves of a record. *)
Definition record_after (file_info : file_record) (db_file : db_record) : db_record :=
  if bool_decide (path db_file = fi_path file_info) then
    if bool_decide (fi_sha256 file_info ∉ sha256 db_file)
    then DbFile (path db_file) (sha256 db_file ++ [fi_sha256 file_info])
    else db_file
  else db_file.

(** The messages one iteration of that loop logs. *)
Definition messages_of (file_info : file_record) (status : file_status)
    (db_file : db_record) : list string :=
  if bool_decide (path db_file = fi_path file_info) then
    (if bool_decide (status = FILE_UNKNOWN)
     then ["New file detected: " +:+ path db_file +:+
           " - hash: " +:+ fi_sha256 file_info]
     else []) ++
    (if bool_decide (status = FILE_KNOWN_TOUCHED)
     then ["Modified file detected: " +:+ path db_file +:+
           " - new hash: " +:+ fi_sha256 file_info]
     else [])
  else [].

(** The two operations that write the registry. *)
Inductive record_op :=
  | AddAlert (file_info : file_record) (status : file_status)
  | AddFile (file_info : file_record).

Definition run_op (op : record_op) : M unit :=
  match op with
  | AddAlert file_info status => add_alert_do_db file_info status
  | AddFile file_info => add_file_to_db file_info
  end.

(** A sequence of operations, one call after the other: a call that raises
    leaves the state it reached, and the next call starts from it. *)
Definition run_ops (ops : list record_op) (st : state) : state :=
  foldl (λ st op, exec (run_op op) st) st ops.

(** One observation of [file_info]: it is classified, and recorded by
    [add_alert_do_db] under the status found. *)
Definition observe (file_info : file_record) : M (option file_status) :=
  r <- check_file_status file_info;;
  (match r with
   | Some status => add_alert_do_db file_info status
   | None => ret tt
   end);;;
  ret r.

(** [n] observations in a row; the statuses found, in order. *)
Fixpoint observe_times (n : nat) (file_info : file_record) : M (list (option file_status)) :=
  match n with
  | 0 => ret []
  | S n' =>
      r <- observe file_info;;
      rs <- observe_times n' file_info;;
      ret (r :: rs)
  end.

(** History [h'] is [h] with new digests put at its end: nothing of [h] is
    dropped or moved, and no digest of [h] comes a second time. *)
Definition grows (h h' : list string) : Prop :=
  ∃ l, h' = h ++ l ∧ NoDup l ∧ ∀ d, d ∈ l → d ∉ h.

(** The same with one digest at most. *)
Definition grows_by_one (h h' : list string) : Prop :=
  h' = h ∨ ∃ d, (d ∉ h) ∧ h' = h ++ [d].

(** A registry of two tracked files, and a state that holds it on disk and
    in the cache, with one line in [alerts.log] and no directory to scan. *)
Definition example_db : list db_record :=
  [DbFile "a.exe" ["h1"]; DbFile "b.sh" ["x"; "y"]].

Definition example_state : state :=
  State (Some example_db)
        (Some (DataFiles (Some example_db) (Some ["binsnitch.py started"])))
        [] [] 0 default_int_handler (λ _, false) [] false.

(** * The other functions of the module *)

(** [s.replace("'", "'\\''")]: every single quote becomes the four
    characters quote, backslash, quote, quote. *)
Fixpoint replace_quote (s : string) : string :=
  match s with
  | EmptyString => EmptyString
  | String c s' =>
      if bool_decide (c = "'"%char) then "'\''" +:+ replace_quote s'
      else String c (replace_quote s')
  end.

(** [shellquote(s)]. *)
Definition shellquote (s : string) : string :=
  "'" +:+ replace_quote s +:+ "'".

(** How [sh] reads a word made of single-quoted segments and of characters
    escaped by a backslash: between quotes every character stands for
    itself up to the closing quote, outside them a backslash makes the next
    character stand for itself.  [inside] tells whether a quote is open;
    [None] for a quote left open and for a word with anything else outside
    the quotes. *)
Fixpoint sh_word (inside : bool) (w : string) : option string :=
  match w with
  | EmptyString => if inside then None else Some EmptyString
  | String c w' =>
      if inside then
        if bool_decide (c = "'"%char) then sh_word false w'
        else String c <$> sh_word true w'
      else if bool_decide (c = "'"%char) then sh_word true w'
      else if bool_decide (c = "\"%char) then
        match w' with
        | String c' w'' => String c' <$> sh_word false w''
        | EmptyString => None
        end
      else None
  end.

(** What [sha256_checksum] uses of [hashlib]: [hashlib.sha256()], the
    method [update] and the method [hexdigest], over hash objects in [H]. *)
Record sha256_impl (H : Type) := Sha256Impl {
  sha256_new : H;
  sha256_update : H → list Byte.byte → H;
  sha256_hexdigest : H → string
}.
Arguments sha256_new {H} _.
Arguments sha256_update {H} _ _ _.
Arguments sha256_hexdigest {H} _ _.

(** [f.read(block_size)] on what is left of the file: the block read and
    what is left after it.  The size -1 reads to the end of the file; a
    size below -1 raises [ValueError], which is [None] here. *)
Definition f_read (block_size : Z) (rest : list Byte.byte)
    : option (list Byte.byte * list Byte.byte) :=
  if (block_size <? -1)%Z then None
  else if (block_size <? 0)%Z then Some (rest, [])
  else Some (take (Z.to_nat block_size) rest, drop (Z.to_nat block_size) rest).

(** [for block in iter(lambda: f.read(block_size), b''): sha256.update(block)]:
    the hash object when the loop ends, or the exception of a read; [None]
    when [fuel] reads did not reach the empty block. *)
Fixpoint read_blocks {H} (impl : sha256_impl H) (fuel : nat) (block_size : Z)
    (rest : list Byte.byte) (sha256 : H) : option (outcome H) :=
  match fuel with
  | 0 => None
  | S fuel' =>
      match f_read block_size rest with
      | None => Some (Raise ValueError)
      | Some ([], _) => Some (Ok sha256)
      | Some (block, rest') =>
          read_blocks impl fuel' block_size rest' (sha256_update impl sha256 block)
      end
  end.

(** [sha256_checksum(filename, block_size)], [file] being the bytes of
    [filename], [None] when it cannot be opened.  The loop is given one read
    per byte of the file and one more. *)
Definition sha256_checksum {H} (impl : sha256_impl H)
    (file : option (list Byte.byte)) (block_size : Z) : option (outcome string) :=
  match file with
  | None => Some (Raise FileNotFoundError)
  | Some content =>
      match read_blocks impl (S (List.length content)) block_size content
                        (sha256_new impl) with
      | Some (Ok sha256) => Some (Ok (sha256_hexdigest impl sha256))
      | Some (Raise exc) => Some (Raise exc)
      | None => None
      end
  end.



(** A file system event of watchdog: [event.src_path],
    [event.is_directory], [event.event_type]. *)
Record fs_event := FsEvent {
  src_path : string;
  is_directory : bool;
  event_type : string
}.

(** [ChangeHandler._dir(event)]. *)
Definition ChangeHandler_dir (event : fs_event) : string :=
  if is_directory event then " (DIR)" else "".

(** [ChangeHandler.process(event)]. *)
Definition process (event : fs_event) : M unit :=
  print (Text (src_path event +:+ ChangeHandler_dir event +:+ ", " +:+
               event_type event)).

Definition on_modified (event : fs_event) : M unit := process event.
Definition on_created (event : fs_event) : M unit := process event.
Definition on_deleted (event : fs_event) : M unit := process event.
Definition on_moved (event : fs_event) : M unit := process event.

(** A call of one of the four methods by the observer. *)
Inductive notification :=
  | Modified (event : fs_event)
  | Created (event : fs_event)
  | Deleted (event : fs_event)
  | Moved (event : fs_event).

Definition notify (n : notification) : M unit :=
  match n with
  | Modified event => on_modified event
  | Created event => on_created event
  | Deleted event => on_deleted event
  | Moved event => on_moved event
  end.

Definition notified (n : notification) : fs_event :=
  match n with
  | Modified event | Created event | Deleted event | Moved event => event
  end.

(** The calls of the observer, one after the other. *)
Fixpoint notify_all (ns : list notification) : M unit :=
  match ns with
  | [] => ret tt
  | n :: ns' => notify n;;; notify_all ns'
  end.

(** The alert of [add_alert_do_db] for a status, if it has one. *)
Definition alert_line (file_info : file_record) (status : file_status) : list string :=
  match status with
  | FILE_UNKNOWN =>
      ["New file detected: " +:+ fi_path file_info +:+
       " - hash: " +:+ fi_sha256 file_info]
  | FILE_KNOWN_TOUCHED =>
      ["Modified file detected: " +:+ fi_path file_info +:+
       " - new hash: " +:+ fi_sha256 file_info]
  | FILE_KNOWN_UNTOUCHED => []
  end.

(** A closed decidable proposition, settled by evaluation. *)
Ltac by_computation := apply (bool_decide_unpack _); vm_compute; exact I.

(** * Classification *)

Section classification.
Context (file_info : file_record).

Lemma for_in_unknown cached known_path :
  fi_path file_info ∉ path <$> cached →
  for_in (check_file_status_body file_info) cached known_path = Next known_path.
Proof.
  induction cached as [|db_file cached IH]; simpl; [done|].
  rewrite not_elem_of_cons. intros [Hne Hnotin].
  unfold check_file_status_body.
  rewrite bool_decide_eq_false_2 by congruence. auto.
Qed.

Lemma for_in_first pre db_file post known_path :
  fi_path file_info ∉ path <$> pre →
  path db_file = fi_path file_info →
  for_in (check_file_status_body file_info) (pre ++ db_file :: post) known_path =
  Return (if bool_decide (fi_sha256 file_info ∈ sha256 db_file)
          then FILE_KNOWN_UNTOUCHED else FILE_KNOWN_TOUCHED).
Proof.
  intros Hpre Hpath. induction pre as [|x pre IH]; simpl.
  - unfold check_file_status_body.
    rewrite bool_decide_eq_true_2 by done. by case_bool_decide.
  - simpl in Hpre. apply not_elem_of_cons in Hpre as [Hne Hpre].
    unfold check_file_status_body at 1.
    rewrite bool_decide_eq_false_2 by congruence. auto.
Qed.

Lemma classify_unknown cached :
  fi_path file_info ∉ path <$> cached →
  classify cached file_info = Some FILE_UNKNOWN.
Proof. intros H. unfold classify. by rewrite for_in_unknown. Qed.

Lemma classify_first pre db_file post :
  fi_path file_info ∉ path <$> pre →
  path db_file = fi_path file_info →
  classify (pre ++ db_file :: post) file_info =
  Some (if bool_decide (fi_sha256 file_info ∈ sha256 db_file)
        then FILE_KNOWN_UNTOUCHED else FILE_KNOWN_TOUCHED).
Proof. intros H1 H2. unfold classify. by rewrite for_in_first. Qed.

(** A path with a record has a first record. *)
Lemma first_record (cached : list db_record) :
  fi_path file_info ∈ path <$> cached →
  ∃ pre db_file post,
    cached = (pre ++ db_file :: post) ∧
    (fi_path file_info ∉ path <$> pre) ∧ path db_file = fi_path file_info.
Proof.
  induction cached as [|x cached IH]; simpl.
  - by intros ?%elem_of_nil.
  - intros Hin. destruct (decide (path x = fi_path file_info)) as [Heq|Hne].
    + exists [], x, cached. split_and!; [done| |done]. simpl. apply not_elem_of_nil.
    + apply elem_of_cons in Hin as [Hin|Hin]; [congruence|].
      destruct (IH Hin) as (pre & db_file & post & -> & Hpre & Hpath).
      exists (x :: pre), db_file, post. split_and!; [done| |done].
      simpl. rewrite not_elem_of_cons. split; [congruence|done].
Qed.

(** The classifier reads the history of the path. *)
Lemma classify_history cached :
  classify cached file_info =
  Some (if bool_decide (fi_path file_info ∈ path <$> cached)
        then if bool_decide (fi_sha256 file_info ∈ history cached (fi_path file_info))
             then FILE_KNOWN_UNTOUCHED else FILE_KNOWN_TOUCHED
        else FILE_UNKNOWN).
Proof.
  unfold classify.
  cut (∀ known_path,
    for_in (check_file_status_body file_info) cached known_path =
    if bool_decide (fi_path file_info ∈ path <$> cached)
    then Return (if bool_decide (fi_sha256 file_info ∈ history cached (fi_path file_info))
                 then FILE_KNOWN_UNTOUCHED else FILE_KNOWN_TOUCHED)
    else Next known_path).
  { intros ->. by case_bool_decide. }
  induction cached as [|x cached IH]; intros known_path; [done|].
  cbn [for_in history]. rewrite fmap_cons.
  unfold check_file_status_body at 1.
  destruct (decide (path x = fi_path file_info)) as [Heq|Hne].
  - rewrite !(bool_decide_eq_true_2 (path x = _)) by done.
    rewrite (bool_decide_eq_true_2 (_ ∈ _ :: _)) by (rewrite Heq; left).
    destruct (bool_decide (fi_sha256 file_info ∈ sha256 x)); reflexivity.
  - rewrite !(bool_decide_eq_false_2 (path x = _)) by done.
    rewrite IH.
    assert (fi_path file_info ∈ path x :: (path <$> cached) ↔
            fi_path file_info ∈ path <$> cached) as Hiff.
    { rewrite elem_of_cons. split; [intros [?|?]; [congruence|done]|by right]. }
    by rewrite (bool_decide_ext _ _ Hiff).
Qed.

(** With one record per path, any record of the path is the first. *)
Lemma classify_unique cached db_file :
  NoDup (path <$> cached) →
  db_file ∈ cached →
  path db_file = fi_path file_info →
  classify cached file_info =
  Some (if bool_decide (fi_sha256 file_info ∈ sha256 db_file)
        then FILE_KNOWN_UNTOUCHED else FILE_KNOWN_TOUCHED).
Proof.
  intros Hnd Hin Hpath.
  apply list_elem_of_split in Hin as (pre & post & ->).
  apply classify_first; [|done].
  rewrite fmap_app in Hnd. apply NoDup_app in Hnd as (_ & Hdisj & _).
  intros Hpre. apply (Hdisj _ Hpre). simpl. rewrite Hpath. left.
Qed.

End classification.

(** * The recorder *)

Section recorder.
Context (file_info : file_record).

Lemma set_logged_nil st : set_logged (logged st ++ []) st = st.
Proof. destruct st. unfold set_logged. simpl. by rewrite app_nil_r. Qed.

Lemma set_logged_app st l1 l2 :
  set_logged (logged (set_logged (logged st ++ l1) st) ++ l2)
             (set_logged (logged st ++ l1) st) =
  set_logged (logged st ++ l1 ++ l2) st.
Proof. destruct st. unfold set_logged. simpl. by rewrite app_assoc. Qed.

(** One iteration of the loop of [add_alert_do_db]. *)
Lemma add_alert_do_db_body_run status db_file st :
  add_alert_do_db_body file_info status db_file st =
  (Ok (record_after file_info db_file),
   set_logged (logged st ++ messages_of file_info status db_file) st).
Proof.
  unfold add_alert_do_db_body, record_after, messages_of.
  destruct (bool_decide (path db_file = fi_path file_info)); cycle 1.
  { unfold ret. by rewrite set_logged_nil. }
  assert (path (if bool_decide (fi_sha256 file_info ∉ sha256 db_file)
                then DbFile (path db_file) (sha256 db_file ++ [fi_sha256 file_info])
                else db_file) = path db_file) as -> by by case_bool_decide.
  destruct st, status; simpl;
    unfold bind, when, ret, logging_info, modify, set_logged; simpl;
    rewrite ?app_nil_r; reflexivity.
Qed.

(** The whole loop. *)
Lemma for_update_run status db_data st :
  for_update (add_alert_do_db_body file_info status) db_data st =
  (Ok (record_after file_info <$> db_data),
   set_logged (logged st ++ List.concat (messages_of file_info status <$> db_data)) st).
Proof.
  revert st. induction db_data as [|db_file db_data IH]; intros st; simpl.
  - unfold ret. by rewrite set_logged_nil.
  - unfold bind. rewrite add_alert_do_db_body_run, IH. unfold ret.
    by rewrite set_logged_app.
Qed.

(** [write_to_db] when the data directory is there: the file holds
    [db_data], and the disposition of SIGINT is the one of before the
    call, as at the end of [Flush.write_to_db_steps]. *)
Lemma write_to_db_run db_data st files :
  binsnitch_data st = Some files →
  write_to_db db_data st =
  (Ok tt,
   State (cached_db st) (Some (DataFiles (Some db_data) (alerts_log files)))
         (logged st) (stdout st) (S (db_writes st)) (sigint st) (is_dir st)
         (watches st) (observer_started st)).
Proof.
  intros Hfiles. destruct st; simpl in *; subst.
  reflexivity.
Qed.

(** [add_alert_do_db] when [db.json] is there. *)
Lemma add_alert_do_db_run status st files db_data :
  binsnitch_data st = Some files →
  db_json files = Some db_data →
  add_alert_do_db file_info status st =
  (Ok tt,
   State (Some (record_after file_info <$> db_data))
         (Some (DataFiles (Some (record_after file_info <$> db_data)) (alerts_log files)))
         (logged st ++ List.concat (messages_of file_info status <$> db_data))
         (stdout st) (S (db_writes st)) (sigint st) (is_dir st) (watches st)
         (observer_started st)).
Proof.
  intros Hfiles Hdb. unfold add_alert_do_db, bind at 1.
  unfold load_db_json, bind at 1, get, persisted. rewrite Hfiles, Hdb.
  unfold ret at 1, bind at 1. rewrite for_update_run.
  destruct st; simpl in *; subst. reflexivity.
Qed.

(** [add_alert_do_db] when [db.json] is missing. *)
Lemma add_alert_do_db_missing status st :
  persisted st = None →
  add_alert_do_db file_info status st = (Raise FileNotFoundError, st).
Proof.
  intros Hnone. unfold add_alert_do_db, bind at 1.
  unfold load_db_json, bind at 1, get. by rewrite Hnone.
Qed.

(** [add_file_to_db] when [db.json] is there. *)
Lemma add_file_to_db_run st files db_data :
  binsnitch_data st = Some files →
  db_json files = Some db_data →
  add_file_to_db file_info st =
  (Ok tt,
   let db_data := db_data ++ [DbFile (fi_path file_info) [fi_sha256 file_info]] in
   State (Some db_data) (Some (DataFiles (Some db_data) (alerts_log files)))
         (logged st) (stdout st) (S (db_writes st)) (sigint st) (is_dir st)
         (watches st) (observer_started st)).
Proof.
  intros Hfiles Hdb. unfold add_file_to_db, bind at 1.
  unfold load_db_json, bind at 1, get, persisted. rewrite Hfiles, Hdb.
  destruct st; simpl in *; subst. reflexivity.
Qed.

Lemma add_file_to_db_missing st :
  persisted st = None →
  add_file_to_db file_info st = (Raise FileNotFoundError, st).
Proof.
  intros Hnone. unfold add_file_to_db, bind at 1.
  unfold load_db_json, bind at 1, get. by rewrite Hnone.
Qed.

(** The loop keeps the paths, in their order. *)
Lemma record_after_path db_file : path (record_after file_info db_file) = path db_file.
Proof. unfold record_after. by repeat case_bool_decide. Qed.

Lemma record_after_paths (db_data : list db_record) :
  path <$> (record_after file_info <$> db_data) = path <$> db_data.
Proof.
  rewrite <- list_fmap_compose. apply list_fmap_ext.
  intros _ x _. apply record_after_path.
Qed.

(** A record that is not of the path, or that lists the digest, stays. *)
Lemma record_after_id db_file :
  (path db_file = fi_path file_info → fi_sha256 file_info ∈ sha256 db_file) →
  record_after file_info db_file = db_file.
Proof.
  intros H. unfold record_after. case_bool_decide; [|done].
  rewrite bool_decide_eq_false_2; [done|]. intros Hn. apply Hn. auto.
Qed.

Lemma messages_of_other status db_file :
  path db_file ≠ fi_path file_info → messages_of file_info status db_file = [].
Proof. intros H. unfold messages_of. by rewrite bool_decide_eq_false_2. Qed.

Lemma messages_of_untouched db_file :
  messages_of file_info FILE_KNOWN_UNTOUCHED db_file = [].
Proof. unfold messages_of. by case_bool_decide. Qed.

(** No record of the path: the loop changes nothing and logs nothing. *)
Lemma unknown_path_frame status (db_data : list db_record) :
  fi_path file_info ∉ path <$> db_data →
  record_after file_info <$> db_data = db_data ∧
  List.concat (messages_of file_info status <$> db_data) = [].
Proof.
  induction db_data as [|x db_data IH]; [done|].
  rewrite fmap_cons, not_elem_of_cons. intros [Hne Hnotin].
  destruct (IH Hnotin) as [IH1 IH2].
  rewrite !fmap_cons. simpl. rewrite IH1, IH2.
  rewrite record_after_id by congruence.
  by rewrite messages_of_other by congruence.
Qed.

(** The path is recorded with the digest: the loop changes nothing. *)
Lemma recorded_frame (db_data : list db_record) :
  (∀ db_file, db_file ∈ db_data → path db_file = fi_path file_info →
              fi_sha256 file_info ∈ sha256 db_file) →
  record_after file_info <$> db_data = db_data ∧
  List.concat (messages_of file_info FILE_KNOWN_UNTOUCHED <$> db_data) = [].
Proof.
  induction db_data as [|x db_data IH]; [done|].
  intros Hall. destruct IH as [IH1 IH2].
  { intros e He. apply Hall. by right. }
  rewrite !fmap_cons. simpl. rewrite IH1, IH2, messages_of_untouched.
  rewrite record_after_id; [done|]. apply Hall. left.
Qed.

(** The path is recorded with the digest: it classifies as untouched. *)
Lemma recorded_untouched (db_data : list db_record) :
  recorded db_data (fi_path file_info) (fi_sha256 file_info) →
  classify db_data file_info = Some FILE_KNOWN_UNTOUCHED.
Proof.
  intros [Hin Hall].
  destruct (first_record _ _ Hin) as (pre & db_file & post & -> & Hpre & Hpath).
  rewrite classify_first by done.
  rewrite bool_decide_eq_true_2; [done|].
  apply Hall; [|done]. apply elem_of_app. right. left.
Qed.

End recorder.

(** * Histories *)

Section histories.

Lemma grows_refl h : grows h h.
Proof.
  exists []. rewrite app_nil_r. split_and!; [done|constructor|].
  by intros d ?%elem_of_nil.
Qed.

Lemma grows_trans h1 h2 h3 : grows h1 h2 → grows h2 h3 → grows h1 h3.
Proof.
  intros (l1 & -> & Hnd1 & Hnew1) (l2 & -> & Hnd2 & Hnew2).
  exists (l1 ++ l2). rewrite app_assoc. split_and!; [done| |].
  - apply NoDup_app. split_and!; [done| |done].
    intros d Hd1 Hd2. apply (Hnew2 d Hd2), elem_of_app. by right.
  - intros d [Hd|Hd]%elem_of_app; [by apply Hnew1|].
    intros Hh. apply (Hnew2 d Hd), elem_of_app. by left.
Qed.

Lemma grows_by_one_grows h h' : grows_by_one h h' → grows h h'.
Proof.
  intros [->|(d & Hd & ->)]; [apply grows_refl|].
  exists [d]. split_and!; [done|apply NoDup_singleton|].
  by intros d' ->%list_elem_of_singleton.
Qed.

(** What the loop of [add_alert_do_db] does to the digests of a record. *)
Lemma record_after_grows file_info db_file :
  grows_by_one (sha256 db_file) (sha256 (record_after file_info db_file)).
Proof.
  unfold record_after. case_bool_decide; [|by left].
  case_bool_decide; [|by left]. right. by exists (fi_sha256 file_info).
Qed.

Lemma history_unknown (db : list db_record) p : p ∉ path <$> db → history db p = [].
Proof.
  induction db as [|x db IH]; [done|].
  rewrite fmap_cons, not_elem_of_cons. intros [Hne Hnotin]. simpl.
  rewrite bool_decide_eq_false_2 by congruence. auto.
Qed.

Lemma history_app (db : list db_record) db_file p :
  history (db ++ [db_file]) p =
  if bool_decide (p ∈ path <$> db) then history db p
  else if bool_decide (path db_file = p) then sha256 db_file else [].
Proof.
  induction db as [|x db IH]; [done|].
  rewrite <- app_comm_cons. cbn [history]. rewrite fmap_cons.
  destruct (decide (path x = p)) as [Heq|Hne].
  - rewrite (bool_decide_eq_true_2 (path x = p)) by done.
    rewrite bool_decide_eq_true_2; [done|]. rewrite Heq. left.
  - rewrite (bool_decide_eq_false_2 (path x = p)) by done.
    rewrite IH.
    assert (p ∈ path x :: (path <$> db) ↔ p ∈ path <$> db) as Hiff.
    { rewrite elem_of_cons. split; [intros [?|?]; [congruence|done]|by right]. }
    by rewrite (bool_decide_ext _ _ Hiff).
Qed.

Lemma history_record_after file_info (db : list db_record) p :
  grows_by_one (history db p) (history (record_after file_info <$> db) p).
Proof.
  induction db as [|x db IH]; [by left|].
  rewrite fmap_cons. cbn [history]. rewrite record_after_path.
  case_bool_decide; [apply record_after_grows|apply IH].
Qed.

(** Every record keeps its place and its path, and its digests grow. *)
Lemma lookup_record_after file_info (db : list db_record) i db_file :
  db !! i = Some db_file →
  ∃ db_file', (record_after file_info <$> db) !! i = Some db_file' ∧
              path db_file' = path db_file ∧
              grows_by_one (sha256 db_file) (sha256 db_file').
Proof.
  intros Hi. exists (record_after file_info db_file).
  rewrite list_lookup_fmap, Hi.
  split_and!; [done|apply record_after_path|apply record_after_grows].
Qed.

(** The registry after one operation. *)
Lemma registry_run_op op st :
  registry (exec (run_op op) st) =
  match persisted st, op with
  | None, _ => []
  | Some db_data, AddAlert file_info _ => record_after file_info <$> db_data
  | Some db_data, AddFile file_info =>
      db_data ++ [DbFile (fi_path file_info) [fi_sha256 file_info]]
  end.
Proof.
  unfold exec, registry.
  destruct (persisted st) as [db_data|] eqn:Hp.
  - unfold persisted in Hp.
    destruct (binsnitch_data st) as [files|] eqn:Hfiles; [|done].
    destruct op as [file_info status|file_info]; simpl.
    + by rewrite (add_alert_do_db_run _ _ _ _ _ Hfiles Hp).
    + by rewrite (add_file_to_db_run _ _ _ _ Hfiles Hp).
  - destruct op as [file_info status|file_info]; simpl.
    + rewrite add_alert_do_db_missing by done. simpl. by rewrite Hp.
    + rewrite add_file_to_db_missing by done. simpl. by rewrite Hp.
Qed.

Lemma run_op_history op st p :
  grows_by_one (history (registry st) p) (history (registry (exec (run_op op) st)) p).
Proof.
  rewrite registry_run_op. unfold registry.
  destruct (persisted st) as [db_data|]; [|by left]. simpl.
  destruct op as [file_info status|file_info].
  - apply history_record_after.
  - rewrite history_app. case_bool_decide as Hin; [by left|].
    rewrite (history_unknown _ _ Hin).
    case_bool_decide; [|by left]. right. exists (fi_sha256 file_info).
    split; [apply not_elem_of_nil|done].
Qed.

Lemma run_op_lookup op st i db_file :
  registry st !! i = Some db_file →
  ∃ db_file', registry (exec (run_op op) st) !! i = Some db_file' ∧
              path db_file' = path db_file ∧
              grows_by_one (sha256 db_file) (sha256 db_file').
Proof.
  rewrite registry_run_op. unfold registry.
  destruct (persisted st) as [db_data|]; simpl; [|by intros ?].
  destruct op as [file_info status|file_info]; intros Hi.
  - by apply lookup_record_after.
  - exists db_file. split_and!; [|done|by left].
    by apply lookup_app_l_Some.
Qed.

Lemma run_ops_cons op ops st :
  run_ops (op :: ops) st = run_ops ops (exec (run_op op) st).
Proof. done. Qed.

End histories.

(** * The properties of the classifier and of the recorder *)

Lemma check_file_status_run file_info st cached :
  cached_db st = Some cached →
  check_file_status file_info st = (Ok (classify cached file_info), st).
Proof.
  intros Hc. unfold check_file_status, bind, get. by rewrite Hc.
Qed.

(** The history of a path is the digest list of its first record. *)
Lemma history_first pre db_file post :
  path db_file ∉ path <$> pre →
  history (pre ++ db_file :: post) (path db_file) = sha256 db_file.
Proof.
  induction pre as [|x pre IH]; simpl.
  - intros _. by rewrite bool_decide_eq_true_2.
  - rewrite not_elem_of_cons. intros [Hne Hpre].
    rewrite bool_decide_eq_false_2 by congruence. auto.
Qed.

(** With one record per path, it is the digest list of the record of the
    path. *)
Lemma history_unique (db : list db_record) db_file :
  NoDup (path <$> db) → db_file ∈ db → history db (path db_file) = sha256 db_file.
Proof.
  intros Hnd Hin. apply list_elem_of_split in Hin as (pre & post & ->).
  apply history_first.
  rewrite fmap_app in Hnd. apply NoDup_app in Hnd as (_ & Hdisj & _).
  intros Hpre. apply (Hdisj _ Hpre). left.
Qed.

(** C1. For every registry held in [cached_db] and every observation
    [file_info], [check_file_status] returns a status: [FILE_UNKNOWN] when
    no record has the path; when a record has it, [FILE_KNOWN_UNTOUCHED] if
    the digest is anywhere in the digest history of the path and
    [FILE_KNOWN_TOUCHED] if it is not.  The history of the path is the
    digest list of the first record of the path, which is its only record
    when the registry has one record per path. *)
Theorem check_file_status_classifies st cached file_info :
  cached_db st = Some cached →
  ∃ status,
    result (check_file_status file_info) st = Ok (Some status) ∧
    (fi_path file_info ∉ path <$> cached → status = FILE_UNKNOWN) ∧
    (fi_path file_info ∈ path <$> cached →
     fi_sha256 file_info ∈ history cached (fi_path file_info) →
     status = FILE_KNOWN_UNTOUCHED) ∧
    (fi_path file_info ∈ path <$> cached →
     fi_sha256 file_info ∉ history cached (fi_path file_info) →
     status = FILE_KNOWN_TOUCHED) ∧
    (∀ pre db_file post,
       cached = pre ++ db_file :: post →
       path db_file ∉ path <$> pre →
       history cached (path db_file) = sha256 db_file) ∧
    (NoDup (path <$> cached) →
     ∀ db_file, db_file ∈ cached → history cached (path db_file) = sha256 db_file).
Proof.
  intros Hc. eexists. split.
  { unfold result. rewrite (check_file_status_run _ _ _ Hc). simpl.
    by rewrite classify_history. }
  split_and!.
  - intros Hnotin. by rewrite bool_decide_eq_false_2.
  - intros Hin Hd. by rewrite !bool_decide_eq_true_2.
  - intros Hin Hd. rewrite bool_decide_eq_true_2 by done.
    by rewrite bool_decide_eq_false_2.
  - intros pre db_file post -> Hpre. by apply history_first.
  - intros Hnd db_file Hin. by apply history_unique.
Qed.

Lemma check_file_status_classifies_witness :
  result (check_file_status (FileInfo "b.sh" "y")) example_state =
  Ok (Some FILE_KNOWN_UNTOUCHED).
Proof.
  destruct (check_file_status_classifies example_state example_db
              (FileInfo "b.sh" "y") eq_refl)
    as (status & Hrun & _ & Huntouched & _).
  rewrite Hrun. do 2 f_equal. apply Huntouched.
  - by_computation.
  - by_computation.
Defined.

(** C9. Classification is a pure read: whatever the state and the
    observation, and whether [check_file_status] returns or raises, the
    state after the call is the state before it, so the cached registry and
    the registry on disk, with every path and every digest history, are
    the same. *)
Theorem check_file_status_reads_only st file_info :
  exec (check_file_status file_info) st = st ∧
  cached_db (exec (check_file_status file_info) st) = cached_db st ∧
  persisted (exec (check_file_status file_info) st) = persisted st.
Proof.
  assert (exec (check_file_status file_info) st = st) as Heq.
  { unfold exec, check_file_status, bind, get.
    by destruct (cached_db st). }
  by rewrite Heq.
Qed.

(** One observation of a path recorded with the digest. *)
Lemma observe_recorded st db_data file_info :
  cached_db st = Some db_data →
  persisted st = Some db_data →
  recorded db_data (fi_path file_info) (fi_sha256 file_info) →
  ∃ st', observe file_info st = (Ok (Some FILE_KNOWN_UNTOUCHED), st') ∧
         cached_db st' = Some db_data ∧ persisted st' = Some db_data ∧
         logged st' = logged st ∧ alert_file st' = alert_file st.
Proof.
  intros Hc Hp Hrec. unfold persisted in Hp.
  destruct (binsnitch_data st) as [files|] eqn:Hfiles; [|done].
  unfold observe, bind at 1.
  rewrite (check_file_status_run _ _ _ Hc), (recorded_untouched _ _ Hrec).
  unfold bind. rewrite (add_alert_do_db_run _ _ _ _ _ Hfiles Hp).
  destruct Hrec as [_ Hall].
  destruct (recorded_frame _ _ Hall) as [-> ->].
  eexists. split; [reflexivity|]. unfold persisted, alert_file. simpl.
  rewrite Hfiles, app_nil_r. done.
Qed.

(** C2. For a path recorded with a digest, observing the same path and
    digest again any number [n] of times finds [FILE_KNOWN_UNTOUCHED] every
    time, and the recording of these observations leaves the contents of
    [db.json] (and the cache) as they were and logs no alert. *)
Theorem reobserving_is_idempotent st db_data file_info n :
  cached_db st = Some db_data →
  persisted st = Some db_data →
  recorded db_data (fi_path file_info) (fi_sha256 file_info) →
  ∃ st', observe_times n file_info st =
           (Ok (replicate n (Some FILE_KNOWN_UNTOUCHED)), st') ∧
         cached_db st' = Some db_data ∧ persisted st' = Some db_data ∧
         logged st' = logged st ∧ alert_file st' = alert_file st.
Proof.
  intros Hc Hp Hrec. revert st Hc Hp.
  induction n as [|n IH]; intros st Hc Hp.
  - by exists st.
  - destruct (observe_recorded st db_data file_info Hc Hp Hrec)
      as (st1 & Hobs & Hc1 & Hp1 & Hl1 & Ha1).
    destruct (IH st1 Hc1 Hp1) as (st2 & Hrest & Hc2 & Hp2 & Hl2 & Ha2).
    exists st2. split_and!; [|done|done|congruence|congruence].
    simpl. unfold bind at 1. rewrite Hobs. unfold bind at 1. by rewrite Hrest.
Qed.

(** With one record per path, a record that lists the digest records it. *)
Lemma recorded_unique (db : list db_record) db_file d :
  NoDup (path <$> db) → db_file ∈ db → d ∈ sha256 db_file →
  recorded db (path db_file) d.
Proof.
  intros Hnd Hin Hd. split; [by apply list_elem_of_fmap_2|].
  intros x Hx Hpath.
  assert (sha256 x = sha256 db_file) as ->; [|done].
  by rewrite <- (history_unique db x), Hpath, history_unique.
Qed.

Lemma example_db_NoDup : NoDup (path <$> example_db).
Proof. by_computation. Qed.

Lemma reobserving_is_idempotent_witness :
  ∃ st', observe_times 3 (FileInfo "b.sh" "x") example_state =
           (Ok (replicate 3 (Some FILE_KNOWN_UNTOUCHED)), st') ∧
         cached_db st' = Some example_db ∧ persisted st' = Some example_db ∧
         logged st' = logged example_state ∧
         alert_file st' = alert_file example_state.
Proof.
  apply (reobserving_is_idempotent example_state example_db
           (FileInfo "b.sh" "x") 3 eq_refl eq_refl).
  apply (recorded_unique example_db (DbFile "b.sh" ["x"; "y"]) "x").
  - apply example_db_NoDup.
  - by_computation.
  - by_computation.
Defined.

(** C3. For every path and every sequence of record operations
    ([add_alert_do_db] and [add_file_to_db], with any arguments, from any
    state), the digest history of the path in [db.json] only grows at its
    end: one operation leaves it as it is or puts one digest at its end,
    a digest that was not in it; a sequence of operations puts digests at
    its end that are new and pairwise different.  The same holds of each
    record of the registry, which also keeps its position and its path. *)
Theorem history_only_grows st p :
  (∀ op, grows_by_one (history (registry st) p)
                      (history (registry (exec (run_op op) st)) p)) ∧
  (∀ ops, grows (history (registry st) p)
                (history (registry (run_ops ops st)) p)) ∧
  (∀ ops i db_file,
     registry st !! i = Some db_file →
     ∃ db_file', registry (run_ops ops st) !! i = Some db_file' ∧
                 path db_file' = path db_file ∧
                 grows (sha256 db_file) (sha256 db_file')).
Proof.
  split_and!.
  - intros op. apply run_op_history.
  - intros ops. revert st. induction ops as [|op ops IH]; intros st.
    + apply grows_refl.
    + rewrite run_ops_cons.
      eapply grows_trans; [|apply IH].
      apply grows_by_one_grows, run_op_history.
  - intros ops. revert st. induction ops as [|op ops IH]; intros st i db_file Hi.
    + exists db_file. split_and!; [done..|apply grows_refl].
    + rewrite run_ops_cons.
      destruct (run_op_lookup op st i db_file Hi) as (x & Hx & Hpath & Hgrow).
      destruct (IH _ i x Hx) as (y & Hy & Hpath' & Hgrow').
      exists y. split_and!; [done|congruence|].
      eapply grows_trans; [by apply grows_by_one_grows|done].
Qed.

Lemma history_only_grows_witness :
  grows ["x"; "y"] ["x"; "y"; "z"] ∧
  ∃ db_file', [DbFile "a.exe" ["h1"]; DbFile "b.sh" ["x"; "y"; "z"];
               DbFile "b.sh" ["y"]] !! 1 = Some db_file' ∧
              path db_file' = "b.sh" ∧ grows ["x"; "y"] (sha256 db_file').
Proof.
  pose (ops := [AddAlert (FileInfo "b.sh" "z") FILE_KNOWN_TOUCHED;
                AddFile (FileInfo "b.sh" "y");
                AddAlert (FileInfo "b.sh" "y") FILE_KNOWN_UNTOUCHED]).
  destruct (history_only_grows example_state "b.sh") as (_ & Hseq & Hrec).
  split.
  - exact (Hseq ops).
  - exact (Hrec ops 1 (DbFile "b.sh" ["x"; "y"]) eq_refl).
Defined.

(** C10. [add_alert_do_db] never changes the paths of the registry.  Called
    for a path that has no record in [db.json], with any status
    ([FILE_UNKNOWN] too), it returns after it has rewritten [db.json] with
    the contents the file had, and logs nothing; the path gets its record
    from [add_file_to_db], which puts it at the end of the registry. *)
Theorem add_alert_do_db_unknown_path st file_info status :
  path <$> registry (exec (add_alert_do_db file_info status) st) =
  path <$> registry st ∧
  ∀ db_data,
    persisted st = Some db_data →
    fi_path file_info ∉ path <$> db_data →
    (∃ st', add_alert_do_db file_info status st = (Ok tt, st') ∧
            persisted st' = Some db_data ∧ cached_db st' = Some db_data ∧
            db_writes st' = S (db_writes st) ∧ logged st' = logged st) ∧
    (∃ st', add_file_to_db file_info st = (Ok tt, st') ∧
            persisted st' =
            Some (db_data ++ [DbFile (fi_path file_info) [fi_sha256 file_info]])).
Proof.
  split.
  - rewrite (registry_run_op (AddAlert file_info status)). unfold registry.
    destruct (persisted st); simpl; [apply record_after_paths|done].
  - intros db_data Hp Hnotin. unfold persisted in Hp.
    destruct (binsnitch_data st) as [files|] eqn:Hfiles; [|done].
    split.
    + rewrite (add_alert_do_db_run _ _ _ _ _ Hfiles Hp).
      destruct (unknown_path_frame file_info status db_data Hnotin) as [-> ->].
      eexists. split; [reflexivity|]. simpl. by rewrite app_nil_r.
    + rewrite (add_file_to_db_run _ _ _ _ Hfiles Hp).
      eexists. split; reflexivity.
Qed.

Lemma add_alert_do_db_unknown_path_witness :
  ∃ st', add_alert_do_db (FileInfo "c.bat" "h9") FILE_UNKNOWN example_state =
           (Ok tt, st') ∧
         persisted st' = Some example_db ∧ cached_db st' = Some example_db ∧
         db_writes st' = 1 ∧ logged st' = [].
Proof.
  destruct (add_alert_do_db_unknown_path example_state
              (FileInfo "c.bat" "h9") FILE_UNKNOWN) as [_ H].
  apply (H example_db eq_refl). by_computation.
Defined.

(** C4. With [args.baseline] set, recording [FILE_UNKNOWN] and
    [FILE_KNOWN_TOUCHED] results any number of times updates the registry
    and puts no line in [alerts.log].  After any sequence [ops] of record
    operations on any state: [add_file_to_db] for an observation that
    classifies as [FILE_UNKNOWN] gives the path a record with the digest
    as its history; [add_alert_do_db] with [FILE_KNOWN_TOUCHED] for an
    observation that classifies so puts the digest at the end of the
    history of the path; and [alerts.log] holds what it held before [ops].
    The recorder reads no option and writes only [db.json]: its messages
    go to [logging.info], which this module leaves without configuration. *)
Theorem baseline_updates_without_alert_lines (args : namespace) st ops :
  baseline args = true →
  alert_file (run_ops ops st) = alert_file st ∧
  ∀ db_data file_info,
    persisted (run_ops ops st) = Some db_data →
    (classify db_data file_info = Some FILE_UNKNOWN →
     fi_path file_info ∈
       path <$> registry (exec (add_file_to_db file_info) (run_ops ops st)) ∧
     history (registry (exec (add_file_to_db file_info) (run_ops ops st)))
             (fi_path file_info) = [fi_sha256 file_info] ∧
     alert_file (exec (add_file_to_db file_info) (run_ops ops st)) =
       alert_file st) ∧
    (classify db_data file_info = Some FILE_KNOWN_TOUCHED →
     history (registry (exec (add_alert_do_db file_info FILE_KNOWN_TOUCHED)
                             (run_ops ops st)))
             (fi_path file_info) =
       history db_data (fi_path file_info) ++ [fi_sha256 file_info] ∧
     alert_file (exec (add_alert_do_db file_info FILE_KNOWN_TOUCHED)
                      (run_ops ops st)) = alert_file st).
Proof.
  intros _.
  assert (∀ ops' st', alert_file (run_ops ops' st') = alert_file st') as Hframe.
  { intros ops'. induction ops' as [|op ops' IH]; intros st'; [done|].
    rewrite run_ops_cons, IH. unfold exec.
    destruct (persisted st') as [db'|] eqn:Hp'.
    - unfold persisted in Hp'. unfold alert_file at 2.
      destruct (binsnitch_data st') as [files|] eqn:Hfiles; [|done].
      destruct op as [file_info status|file_info]; simpl.
      + by rewrite (add_alert_do_db_run _ _ _ _ _ Hfiles Hp').
      + by rewrite (add_file_to_db_run _ _ _ _ Hfiles Hp').
    - destruct op as [file_info status|file_info]; simpl.
      + by rewrite add_alert_do_db_missing.
      + by rewrite add_file_to_db_missing. }
  assert (∀ op, alert_file (exec (run_op op) (run_ops ops st)) = alert_file st)
    as Hone.
  { intros op. rewrite <- (Hframe ops st). apply (Hframe [op]). }
  split; [apply Hframe|].
  intros db_data file_info Hp. rewrite classify_history. split.
  - case_bool_decide as Hin; [by case_bool_decide|]. intros _.
    split_and!; [| |apply (Hone (AddFile file_info))].
    + rewrite (registry_run_op (AddFile file_info)), Hp.
      rewrite fmap_app. apply elem_of_app. right. left.
    + rewrite (registry_run_op (AddFile file_info)), Hp.
      rewrite history_app, bool_decide_eq_false_2 by done.
      by rewrite bool_decide_eq_true_2.
  - case_bool_decide as Hin; [|done].
    case_bool_decide as Hd; [done|]. intros _.
    split; [|apply (Hone (AddAlert file_info FILE_KNOWN_TOUCHED))].
    rewrite (registry_run_op (AddAlert file_info FILE_KNOWN_TOUCHED)), Hp.
    clear Hp. induction db_data as [|x db IH]; [by apply elem_of_nil in Hin|].
    rewrite fmap_cons. cbn [history] in *. rewrite record_after_path.
    case_bool_decide as Hpath.
    + unfold record_after. rewrite bool_decide_eq_true_2 by done.
      by rewrite bool_decide_eq_true_2.
    + apply IH; [|done].
      rewrite fmap_cons in Hin.
      apply elem_of_cons in Hin as [?|?]; [congruence|done].
Qed.

Lemma baseline_updates_without_alert_lines_witness :
  history (registry (exec (add_alert_do_db (FileInfo "a.exe" "h2") FILE_KNOWN_TOUCHED)
                          (run_ops [AddFile (FileInfo "c.bat" "h9")] example_state)))
          "a.exe" = ["h1"; "h2"] ∧
  alert_file (exec (add_alert_do_db (FileInfo "a.exe" "h2") FILE_KNOWN_TOUCHED)
                   (run_ops [AddFile (FileInfo "c.bat" "h9")] example_state)) =
    Some ["binsnitch.py started"].
Proof.
  destruct (baseline_updates_without_alert_lines
              (Args "watched" false false false false true false)
              example_state [AddFile (FileInfo "c.bat" "h9")] eq_refl)
    as [_ Hstep].
  destruct (Hstep (example_db ++ [DbFile "c.bat" ["h9"]])
                  (FileInfo "a.exe" "h2") eq_refl) as [_ Htouched].
  apply Htouched. reflexivity.
Defined.

(** * The flush under interrupts *)

Module FlushFacts.
Import Flush.

Lemma on_event_phase h old chunks e p :
  phase h old chunks p → phase h old chunks (on_event e p).
Proof.
  intros Hp. destruct Hp as [r| |written rest Hsplit|r].
  - destruct r, e; try constructor.
    unfold on_event. cbn [running disposition s file todo].
    destruct h; constructor.
  - destruct e; [|constructor].
    apply (writing h old chunks [] chunks). done.
  - destruct e; [|by constructor].
    destruct rest as [|c rest].
    + rewrite app_nil_r in Hsplit. subst written. apply after_flush.
    + apply (writing h old chunks (written ++ [c]) rest).
      by rewrite <- app_assoc.
  - destruct r, e; try constructor.
    unfold on_event. cbn [running disposition s file todo].
    destruct h; constructor.
Qed.

Lemma run_phase h old chunks t p :
  phase h old chunks p → phase h old chunks (run t p).
Proof.
  revert p. induction t as [|e t IH]; intros p Hp; [done|].
  apply IH. by apply on_event_phase.
Qed.

Lemma run_app t1 t2 p : run (t1 ++ t2) p = run t2 (run t1 p).
Proof. unfold run. apply foldl_app. Qed.

Lemma run_cons e t p : run (e :: t) p = run t (on_event e p).
Proof. done. Qed.

(** While the flush is in progress an interrupt is lost. *)
Lemma sigint_lost h old chunks p :
  phase h old chunks p → flushing p = true → on_event Sigint p = p.
Proof.
  intros Hp Hf. by destruct Hp as [r| |written rest Hsplit|r].
Qed.

(** The steps of the writes, taken without interrupt. *)
Lemma run_writes h written rest :
  run (replicate (List.length rest) Step)
      (Proc SIG_IGN (Some h) written true (map WriteChunk rest ++ [RestoreSaved])) =
  Proc SIG_IGN (Some h) (written ++ rest) true [RestoreSaved].
Proof.
  revert written. induction rest as [|c rest IH]; intros written; simpl.
  - by rewrite app_nil_r.
  - unfold on_event, exec_instr. cbn [running disposition s file todo].
    rewrite IH. by rewrite <- app_assoc.
Qed.

(** All the steps, taken without interrupt. *)
Lemma run_all h old chunks :
  run (replicate (List.length (write_to_db_steps chunks)) Step)
      (start h old chunks) =
  Proc h (Some h) chunks true [].
Proof.
  assert (List.length (write_to_db_steps chunks) = 2 + (List.length chunks + 1))
    as ->.
  { unfold write_to_db_steps. rewrite !List.length_app, length_map. done. }
  rewrite replicate_add, run_app.
  assert (run (replicate 2 Step) (start h old chunks) =
          Proc SIG_IGN (Some h) [] true (map WriteChunk chunks ++ [RestoreSaved]))
    as -> by reflexivity.
  rewrite replicate_add, run_app, run_writes. reflexivity.
Qed.

End FlushFacts.

(** C5. An interrupt that arrives while the flush of [write_to_db] is in
    progress is ignored: the run goes on as if it had not arrived, and it is
    not delivered after the flush either.  For every disposition [h] of
    SIGINT at the call, every content [old] of [db.json], every document
    [chunks] to write and every interleaving [t] of steps and interrupts:
    when the run is over, [db.json] holds [old] or the whole of [chunks];
    an interrupt during the flush changes nothing; and the steps taken
    without interrupt end with the whole document in the file and the
    disposition put back. *)
Theorem flush_ignores_interrupts (h : handler) (old chunks : list string)
    (t : list Flush.event) :
  (Flush.over (Flush.run t (Flush.start h old chunks)) = true →
   Flush.file (Flush.run t (Flush.start h old chunks)) = old ∨
   Flush.file (Flush.run t (Flush.start h old chunks)) = chunks) ∧
  (∀ t1 t2,
     t = t1 ++ Flush.Sigint :: t2 →
     Flush.flushing (Flush.run t1 (Flush.start h old chunks)) = true →
     Flush.run t (Flush.start h old chunks) =
     Flush.run (t1 ++ t2) (Flush.start h old chunks)) ∧
  Flush.run (replicate (List.length (Flush.write_to_db_steps chunks)) Flush.Step)
            (Flush.start h old chunks) =
  Flush.Proc h (Some h) chunks true [].
Proof.
  assert (Flush.phase h old chunks (Flush.start h old chunks)) as Hstart
    by constructor.
  split_and!.
  - pose proof (FlushFacts.run_phase h old chunks t _ Hstart) as Hp.
    destruct Hp as [r| |written rest Hsplit|r]; simpl.
    + intros _. by left.
    + done.
    + unfold Flush.over. cbn [Flush.running Flush.todo negb orb].
      intros Hover%bool_decide_eq_true.
      by destruct rest.
    + intros _. by right.
  - intros t1 t2 -> Hflushing.
    rewrite !FlushFacts.run_app, FlushFacts.run_cons.
    rewrite (FlushFacts.sigint_lost h old chunks); [done| |done].
    by apply FlushFacts.run_phase.
  - apply FlushFacts.run_all.
Qed.

Lemma flush_ignores_interrupts_witness :
  Flush.run [Flush.Step; Flush.Step; Flush.Sigint; Flush.Step; Flush.Step;
             Flush.Step; Flush.Step; Flush.Step]
            (Flush.start signal_handler ["[]"] ["["; "{}"; "]"]) =
  Flush.Proc signal_handler (Some signal_handler) ["["; "{}"; "]"] true [].
Proof.
  destruct (flush_ignores_interrupts signal_handler ["[]"] ["["; "{}"; "]"]
              [Flush.Step; Flush.Step; Flush.Sigint; Flush.Step; Flush.Step;
               Flush.Step; Flush.Step; Flush.Step]) as (_ & Hlost & _).
  rewrite (Hlost [Flush.Step; Flush.Step]
                 [Flush.Step; Flush.Step; Flush.Step; Flush.Step; Flush.Step]
                 eq_refl eq_refl).
  reflexivity.
Defined.

(** The interrupt of C5 is not deferred: it arrives between the opening of
    the file and the first write, the flush completes, and the process
    still runs with [signal_handler] back in place. *)
Lemma interrupt_not_deferred :
  ¬ Flush.deferred signal_handler ["[]"] ["["; "{}"; "]"]
      [Flush.Step; Flush.Step]
      [Flush.Step; Flush.Step; Flush.Step; Flush.Step].
Proof. intros H. by specialize (H eq_refl eq_refl). Qed.

(** * Start-up *)

(** [scan] on a target that is not a directory. *)
Lemma scan_invalid_target args st :
  is_dir st (dir args) = false →
  scan args st =
  (Raise (SystemExit None),
   State (cached_db st) (binsnitch_data st)
         (logged st ++ ["Scanning " +:+ dir args +:+
                        " for new and modified files, this can take a long time"])
         (stdout st ++ [Text ("Error: " +:+ dir args +:+ " could not be read, exiting.")])
         (db_writes st) (sigint st) (is_dir st) (watches st) (observer_started st)).
Proof.
  intros Hdir. unfold scan, bind, logging_info, modify, get, set_logged. simpl.
  rewrite Hdir. reflexivity.
Qed.

(** [scan] on a directory: the watch is scheduled, the observer started and
    [signal_handler] installed; the wait in [observer.join()] is left
    through [signal_handler], which stops the observer and exits. *)
Lemma scan_valid_target args st :
  is_dir st (dir args) = true →
  scan args st =
  (Raise (SystemExit (Some 0%Z)),
   State (cached_db st) (binsnitch_data st)
         (logged st ++ ["Scanning " +:+ dir args +:+
                        " for new and modified files, this can take a long time"])
         (stdout st) (db_writes st) signal_handler (is_dir st)
         (watches st ++ [dir args]) false).
Proof.
  intros Hdir. unfold scan, bind, logging_info, modify, get, set_logged. simpl.
  rewrite Hdir. reflexivity.
Qed.

(** C6, as the code has it. When the target is not a directory (missing, or
    not a directory), [main] stops in [scan] before any watch is scheduled
    and before the observer is started: it prints
    "Error: <dir> could not be read, exiting." and leaves through [exit()],
    called without a status, so the exit status of the process is 0. *)
Theorem invalid_target_exits_early args st :
  is_dir st (dir args) = false →
  result (main args) st = Raise (SystemExit None) ∧
  exit_status (result (main args) st) = 0%Z ∧
  stdout (exec (main args) st) =
    stdout st ++ [Text ("Error: " +:+ dir args +:+ " could not be read, exiting.")] ∧
  watches (exec (main args) st) = watches st ∧
  observer_started (exec (main args) st) = observer_started st ∧
  sigint (exec (main args) st) = sigint st.
Proof.
  intros Hdir. unfold result, exec, main.
  rewrite (scan_invalid_target _ _ Hdir). done.
Qed.

Lemma invalid_target_exits_early_witness :
  result (main (Args "missing" false false false false false false)) example_state =
    Raise (SystemExit None) ∧
  exit_status (result (main (Args "missing" false false false false false false))
                      example_state) = 0%Z.
Proof.
  destruct (invalid_target_exits_early
              (Args "missing" false false false false false false)
              example_state eq_refl) as (H1 & H2 & _).
  split; [exact H1|exact H2].
Defined.

(** C6 as stated fails: the target "missing" is no directory in
    [example_state], and the exit status of [main] is not a non-zero one. *)
Lemma invalid_target_status_is_zero :
  is_dir example_state "missing" = false ∧
  ¬ (exit_status (result (main (Args "missing" false false false false false false))
                         example_state) ≠ 0%Z).
Proof. split; [reflexivity|]. intros H. by apply H. Qed.

(** [prepare_data_files] with [--wipe] when [db.json] is there. *)
Lemma prepare_data_files_wipe args st db_data alerts :
  wipe args = true →
  binsnitch_data st = Some (DataFiles (Some db_data) alerts) →
  prepare_data_files args st =
  (Ok tt,
   State (Some []) (Some (DataFiles (Some []) (Some [])))
         (logged st) (stdout st) (db_writes st) (sigint st) (is_dir st)
         (watches st) (observer_started st)).
Proof.
  intros Hwipe Hfiles. destruct st as [c b l o w sg d ws started].
  simpl in Hfiles. subst b.
  unfold prepare_data_files. rewrite Hwipe. by destruct alerts.
Qed.

(** [prepare_data_files] with [--wipe] when [db.json] is missing and
    [alerts.log] is there: the first [os.remove] raises, the second one is
    not reached. *)
Lemma prepare_data_files_wipe_missing_db args st lines :
  wipe args = true →
  binsnitch_data st = Some (DataFiles None (Some lines)) →
  prepare_data_files args st =
  (Ok tt,
   State (Some []) (Some (DataFiles (Some []) (Some lines)))
         (logged st) (stdout st) (db_writes st) (sigint st) (is_dir st)
         (watches st) (observer_started st)).
Proof.
  intros Hwipe Hfiles. destruct st as [c b l o w sg d ws started].
  simpl in Hfiles. subst b.
  unfold prepare_data_files. by rewrite Hwipe.
Qed.

(** C7, as the code has it. With [--wipe], [main] leaves [db.json] and
    [alerts.log] as they were, whatever they hold: it does not call
    [prepare_data_files].  [prepare_data_files] itself, when [db.json] is
    there, leaves an empty registry (on disk and in the cache) and an empty
    alert log; when [db.json] is missing it leaves the lines of
    [alerts.log] in place. *)
Theorem wipe_is_not_run_by_main args st :
  wipe args = true →
  binsnitch_data (exec (main args) st) = binsnitch_data st ∧
  cached_db (exec (main args) st) = cached_db st ∧
  (∀ db_data alerts,
     binsnitch_data st = Some (DataFiles (Some db_data) alerts) →
     persisted (exec (prepare_data_files args) st) = Some [] ∧
     alert_file (exec (prepare_data_files args) st) = Some [] ∧
     cached_db (exec (prepare_data_files args) st) = Some []) ∧
  (∀ lines,
     binsnitch_data st = Some (DataFiles None (Some lines)) →
     alert_file (exec (prepare_data_files args) st) = Some lines).
Proof.
  intros Hwipe.
  assert (binsnitch_data (exec (main args) st) = binsnitch_data st ∧
          cached_db (exec (main args) st) = cached_db st) as [H1 H2].
  { unfold exec, main.
    destruct (is_dir st (dir args)) eqn:Hdir.
    - by rewrite (scan_valid_target _ _ Hdir).
    - by rewrite (scan_invalid_target _ _ Hdir). }
  split_and!; [done|done| |].
  - intros db_data alerts Hfiles. unfold exec.
    by rewrite (prepare_data_files_wipe _ _ _ _ Hwipe Hfiles).
  - intros lines Hfiles. unfold exec.
    by rewrite (prepare_data_files_wipe_missing_db _ _ _ Hwipe Hfiles).
Qed.

Lemma wipe_is_not_run_by_main_witness :
  persisted (exec (main (Args "watched" false false false false false true))
                  example_state) = Some example_db ∧
  alert_file (exec (main (Args "watched" false false false false false true))
                   example_state) = Some ["binsnitch.py started"].
Proof.
  destruct (wipe_is_not_run_by_main
              (Args "watched" false false false false false true)
              example_state eq_refl) as (Hfiles & _).
  unfold persisted, alert_file. rewrite Hfiles. split; reflexivity.
Defined.

(** * The filter *)

Section filter.

Lemma upper_ascii_idem c : upper_ascii (upper_ascii c) = upper_ascii c.
Proof. by destruct c as [[] [] [] [] [] [] [] []]. Qed.

Lemma upper_ascii_slash c :
  bool_decide (upper_ascii c = "/"%char) = bool_decide (c = "/"%char).
Proof. by destruct c as [[] [] [] [] [] [] [] []]. Qed.

Lemma upper_ascii_dot c :
  bool_decide (upper_ascii c = "."%char) = bool_decide (c = "."%char).
Proof. by destruct c as [[] [] [] [] [] [] [] []]. Qed.

Lemma upper_idem e : upper (upper e) = upper e.
Proof. induction e as [|c e IH]; simpl; [done|]. by rewrite upper_ascii_idem, IH. Qed.

Lemma upper_snoc e c :
  upper (e +:+ String c EmptyString) = upper e +:+ String (upper_ascii c) EmptyString.
Proof. induction e as [|c' e IH]; simpl; [done|]. by rewrite IH. Qed.

(** Upper case goes through the search of the extension. *)
Lemma extension_from_upper p acc :
  extension_from (upper p) (upper <$> acc) = upper <$> extension_from p acc.
Proof.
  revert acc. induction p as [|c p IH]; intros acc; simpl; [done|].
  rewrite upper_ascii_slash, upper_ascii_dot.
  destruct (bool_decide (c = "/"%char)); [apply (IH None)|].
  destruct (bool_decide (c = "."%char)); [apply (IH (Some EmptyString))|].
  rewrite <- IH. f_equal. destruct acc as [e|]; simpl; [|done].
  by rewrite upper_snoc.
Qed.

Lemma isRelevant_upper p trackAll :
  isRelevant (upper p) trackAll = isRelevant p trackAll.
Proof.
  unfold isRelevant, extension.
  change (extension_from (upper p) None)
    with (extension_from (upper p) (upper <$> None)).
  rewrite extension_from_upper.
  destruct (extension_from p None) as [e|]; simpl; [|done].
  by rewrite upper_idem.
Qed.

(** The extensions of the set are written in upper case. *)
Lemma dangerous_extensions_upper x : x ∈ dangerous_extensions → upper x = x.
Proof.
  unfold dangerous_extensions. rewrite elem_of_list_to_set.
  revert x. apply Forall_forall. by_computation.
Qed.

End filter.

(** C8. Without [trackAll] a path is relevant exactly when it has an
    extension whose upper case is in [dangerous_extensions], a fixed set of
    extensions all written in upper case, so that paths that differ by the
    case of their letters are relevant together: [payload.exe] is relevant,
    [notes.txt] is not.  With [trackAll] every path is relevant. *)
Theorem filter_selects_by_extension :
  (∀ p, isRelevant p true = true) ∧
  (∀ p, isRelevant p false = true ↔
        ∃ e, extension p = Some e ∧ upper e ∈ dangerous_extensions) ∧
  (∀ p1 p2 trackAll,
     upper p1 = upper p2 → isRelevant p1 trackAll = isRelevant p2 trackAll) ∧
  (∀ x, x ∈ dangerous_extensions → upper x = x) ∧
  isRelevant "payload.exe" false = true ∧
  isRelevant "notes.txt" false = false ∧
  isRelevant "payload.exe" true = true ∧
  isRelevant "notes.txt" true = true.
Proof.
  split_and!; try by vm_compute.
  - intros p. unfold isRelevant. simpl.
    destruct (extension p) as [e|].
    + rewrite bool_decide_eq_true. split; [by exists e|].
      by intros (e' & [= <-] & He).
    + split; [done|]. by intros (e' & [=] & _).
  - intros p1 p2 trackAll Heq.
    by rewrite <- (isRelevant_upper p1), <- (isRelevant_upper p2), Heq.
  - apply dangerous_extensions_upper.
Qed.

Lemma filter_selects_by_extension_witness :
  isRelevant "Tools/Setup.Exe" false = isRelevant "tools/setup.exe" false ∧
  ∃ e, extension "tools/setup.exe" = Some e ∧ upper e ∈ dangerous_extensions.
Proof.
  destruct filter_selects_by_extension as (_ & Hiff & Hcase & _).
  split.
  - apply Hcase. reflexivity.
  - apply Hiff. reflexivity.
Defined.

(** * [shellquote] *)

(** Between quotes, the four characters put for a quote read as a quote. *)
Lemma sh_word_escaped_quote w :
  sh_word true ("'\''" +:+ w) = String "'"%char <$> sh_word true w.
Proof. reflexivity. Qed.

Lemma sh_word_replace_quote s :
  sh_word true (replace_quote s +:+ "'") = Some s.
Proof.
  induction s as [|c s IH]; [done|].
  cbn [replace_quote]. case_bool_decide as Hc.
  - subst c.
    change (("'\''" +:+ replace_quote s) +:+ "'")
      with ("'\''" +:+ (replace_quote s +:+ "'")).
    by rewrite sh_word_escaped_quote, IH.
  - change (String c (replace_quote s) +:+ "'")
      with (String c (replace_quote s +:+ "'")).
    cbn [sh_word]. rewrite bool_decide_eq_false_2 by done.
    by rewrite IH.
Qed.

(** X1. Read back by [sh], [shellquote s] is one word, the string [s]
    itself, whatever characters [s] holds: nothing of it is left outside
    the quotes but escaped quotes. *)
Theorem shellquote_sh_word s : sh_word false (shellquote s) = Some s.
Proof. unfold shellquote. simpl. apply sh_word_replace_quote. Qed.

(** X2. [shellquote] is injective: two strings with the same quoting are
    the same string. *)
Theorem shellquote_inj s1 s2 : shellquote s1 = shellquote s2 → s1 = s2.
Proof.
  intros Heq.
  assert (sh_word true (replace_quote s1 +:+ "'") =
          sh_word true (replace_quote s2 +:+ "'")) as Hw.
  { unfold shellquote in Heq. simpl in Heq. injection Heq as Heq.
    f_equal. exact Heq. }
  rewrite !sh_word_replace_quote in Hw. by injection Hw.
Qed.

Lemma shellquote_inj_witness : "it's" = "it's".
Proof. apply (shellquote_inj "it's" "it's"). reflexivity. Defined.

(** * [sha256_checksum] *)

Section checksum.
Context {H : Type} (impl : sha256_impl H).
Context (update_app : ∀ sha256 b1 b2,
           sha256_update impl (sha256_update impl sha256 b1) b2 =
           sha256_update impl sha256 (b1 ++ b2)).
Context (update_nil : ∀ sha256, sha256_update impl sha256 [] = sha256).


End checksum.



(** X4. With the block size 0 the first read is empty and ends the loop:
    [sha256_checksum] returns the digest of no byte at all, whatever the
    file holds; and a file that cannot be opened raises, for every block
    size. *)
Theorem sha256_checksum_block_size_0 {H} (impl : sha256_impl H)
    (content : list Byte.byte) (block_size : Z) :
  sha256_checksum impl (Some content) 0 =
    Some (Ok (sha256_hexdigest impl (sha256_new impl))) ∧
  sha256_checksum impl None block_size = Some (Raise FileNotFoundError).
Proof.
  split; [|done]. unfold sha256_checksum. cbn [read_blocks].
  unfold f_read. simpl. by destruct content.
Qed.

(** * [refresh_cache], [prepare_data_files], [write_to_db] *)

Lemma refresh_cache_run st :
  refresh_cache st =
  match persisted st with
  | Some db_data => (Ok tt, set_cached_db (Some db_data) st)
  | None => (Ok tt, set_stdout (stdout st ++ [ExcInfo FileNotFoundError]) st)
  end.
Proof.
  cbv [refresh_cache try_except bind load_db_json get ret raise modify print].
  destruct (persisted st); reflexivity.
Qed.

(** X5. [refresh_cache] never raises and never writes [db.json].  When
    [db.json] is there, [cached_db] becomes its contents and nothing is
    printed; when it is missing, the exception is printed and [cached_db]
    keeps the value it had, stale or [None]. *)
Theorem refresh_cache_never_raises st :
  result refresh_cache st = Ok tt ∧
  binsnitch_data (exec refresh_cache st) = binsnitch_data st ∧
  (∀ db_data, persisted st = Some db_data →
     cached_db (exec refresh_cache st) = Some db_data ∧
     stdout (exec refresh_cache st) = stdout st) ∧
  (persisted st = None →
     cached_db (exec refresh_cache st) = cached_db st ∧
     stdout (exec refresh_cache st) = stdout st ++ [ExcInfo FileNotFoundError]).
Proof.
  unfold result, exec. rewrite refresh_cache_run.
  destruct (persisted st) as [db_data|]; simpl; split_and!; try done.
Qed.

Lemma refresh_cache_never_raises_witness :
  cached_db (exec refresh_cache
               (State (Some example_db) None [] [] 0 default_int_handler
                      (λ _, false) [] false)) = Some example_db ∧
  stdout (exec refresh_cache
            (State (Some example_db) None [] [] 0 default_int_handler
                   (λ _, false) [] false)) = [ExcInfo FileNotFoundError].
Proof.
  destruct (refresh_cache_never_raises
              (State (Some example_db) None [] [] 0 default_int_handler
                     (λ _, false) [] false)) as (_ & _ & _ & Hmissing).
  exact (Hmissing eq_refl).
Defined.

(** [prepare_data_files] from any state, in full. *)
Lemma prepare_data_files_run args st :
  prepare_data_files args st =
  (Ok tt,
   let kept_db := if wipe args then None else persisted st in
   let kept_alerts :=
     if wipe args
     then match persisted st with Some _ => None | None => alert_file st end
     else alert_file st in
   State (Some (default [] kept_db))
         (Some (DataFiles (Some (default [] kept_db)) (Some (default [] kept_alerts))))
         (logged st) (stdout st) (db_writes st) (sigint st) (is_dir st)
         (watches st) (observer_started st)).
Proof.
  destruct st as [c b l o w sg d ws started].
  unfold prepare_data_files, persisted, alert_file. simpl.
  destruct (wipe args), b as [[[db_data|] [lines|]]|]; reflexivity.
Qed.

(** X6. On a disk where [binsnitch_data] is missing or is a directory and
    [db.json] is missing or holds a well-formed registry (the disks of
    [data_files]), [prepare_data_files] does not raise, whatever the
    options, and leaves the program ready: the data directory and its two
    files exist, [cached_db] holds the contents of [db.json], and the calls
    of [check_file_status], [add_alert_do_db] and [add_file_to_db] that
    follow return. *)
Theorem prepare_data_files_ready args st :
  ∃ st' db_data lines,
    prepare_data_files args st = (Ok tt, st') ∧
    binsnitch_data st' = Some (DataFiles (Some db_data) (Some lines)) ∧
    cached_db st' = Some db_data ∧
    ∀ file_info status,
      (∃ r, result (check_file_status file_info) st' = Ok (Some r)) ∧
      result (add_alert_do_db file_info status) st' = Ok tt ∧
      result (add_file_to_db file_info) st' = Ok tt.
Proof.
  rewrite prepare_data_files_run. eexists _, _, _.
  split_and!; [reflexivity..|].
  intros file_info status. split_and!.
  - unfold result. erewrite check_file_status_run by reflexivity.
    rewrite classify_history. by eexists.
  - unfold result. by erewrite add_alert_do_db_run.
  - unfold result. by erewrite add_file_to_db_run.
Qed.

(** X7. Without [--wipe], [prepare_data_files] keeps what the disk holds:
    the registry of [db.json] and the lines of [alerts.log] are the ones of
    before, and a missing file is created empty. *)
Theorem prepare_data_files_keeps args st :
  wipe args = false →
  persisted (exec (prepare_data_files args) st) = Some (default [] (persisted st)) ∧
  alert_file (exec (prepare_data_files args) st) = Some (default [] (alert_file st)) ∧
  cached_db (exec (prepare_data_files args) st) = Some (default [] (persisted st)).
Proof.
  intros Hwipe. unfold exec. rewrite prepare_data_files_run, Hwipe. done.
Qed.

Lemma prepare_data_files_keeps_witness :
  persisted (exec (prepare_data_files (Args "watched" false false false false false false))
                  example_state) = Some example_db ∧
  alert_file (exec (prepare_data_files (Args "watched" false false false false false false))
                   example_state) = Some ["binsnitch.py started"].
Proof.
  destruct (prepare_data_files_keeps
              (Args "watched" false false false false false false)
              example_state eq_refl) as (H1 & H2 & _).
  split; [exact H1|exact H2].
Defined.



(** X9. [write_to_db] has no [finally]: when the file cannot be opened (the
    data directory is missing) it raises with SIGINT still ignored, and
    nothing else changed; when it returns, the disposition of SIGINT is the
    one of before the call. *)
Theorem write_to_db_leaves_sigint db_data st :
  (binsnitch_data st = None →
   write_to_db db_data st = (Raise FileNotFoundError, set_sigint SIG_IGN st)) ∧
  (∀ files, binsnitch_data st = Some files →
     result (write_to_db db_data) st = Ok tt ∧
     sigint (exec (write_to_db db_data) st) = sigint st ∧
     persisted (exec (write_to_db db_data) st) = Some db_data ∧
     alert_file (exec (write_to_db db_data) st) = alert_file st).
Proof.
  split.
  - intros Hnone. destruct st; simpl in *; subst. reflexivity.
  - intros files Hfiles. unfold result, exec.
    rewrite (write_to_db_run _ _ _ Hfiles).
    unfold persisted, alert_file. simpl. by rewrite Hfiles.
Qed.

Lemma write_to_db_leaves_sigint_witness :
  write_to_db [] (State None None [] [] 0 default_int_handler (λ _, false) [] false) =
  (Raise FileNotFoundError,
   State None None [] [] 0 SIG_IGN (λ _, false) [] false).
Proof.
  destruct (write_to_db_leaves_sigint []
              (State None None [] [] 0 default_int_handler (λ _, false) [] false))
    as [Hmissing _].
  exact (Hmissing eq_refl).
Defined.

(** * The recorder and the classifier together *)

(** After the loop of [add_alert_do_db], a path with a record has the
    digest in its history. *)
Lemma history_record_after_in file_info (db : list db_record) :
  fi_path file_info ∈ path <$> db →
  fi_sha256 file_info ∈ history (record_after file_info <$> db) (fi_path file_info).
Proof.
  induction db as [|x db IH]; [by intros ?%elem_of_nil|].
  rewrite !fmap_cons. cbn [history]. rewrite record_after_path.
  intros Hin. case_bool_decide as Hpath.
  - unfold record_after. rewrite bool_decide_eq_true_2 by done.
    case_bool_decide as Hd.
    + simpl. apply elem_of_app. right. left.
    + done.
  - apply IH. apply elem_of_cons in Hin as [Heq|Hin]; [congruence|done].
Qed.

(** X10. After [add_alert_do_db] has run on an existing [db.json], for any
    status, the same observation classifies as [FILE_KNOWN_UNTOUCHED] when
    the path has a record, and still as [FILE_UNKNOWN] when it has none:
    the function learns digests, not paths.  This holds whatever
    [cached_db] held before, since the call refreshes it. *)
Theorem add_alert_do_db_then_check st db_data file_info status :
  persisted st = Some db_data →
  (fi_path file_info ∈ path <$> db_data →
   result (check_file_status file_info)
          (exec (add_alert_do_db file_info status) st) =
   Ok (Some FILE_KNOWN_UNTOUCHED)) ∧
  (fi_path file_info ∉ path <$> db_data →
   result (check_file_status file_info)
          (exec (add_alert_do_db file_info status) st) =
   Ok (Some FILE_UNKNOWN)).
Proof.
  intros Hp. unfold persisted in Hp.
  destruct (binsnitch_data st) as [files|] eqn:Hfiles; [|done].
  unfold exec, result. rewrite (add_alert_do_db_run _ _ _ _ _ Hfiles Hp).
  cbn [snd]. erewrite check_file_status_run by reflexivity. cbn [fst].
  rewrite classify_history, record_after_paths. split; intros Hin.
  - rewrite bool_decide_eq_true_2 by done.
    rewrite bool_decide_eq_true_2; [done|]. by apply history_record_after_in.
  - by rewrite bool_decide_eq_false_2.
Qed.

Lemma add_alert_do_db_then_check_witness :
  result (check_file_status (FileInfo "a.exe" "h2"))
         (exec (add_alert_do_db (FileInfo "a.exe" "h2") FILE_KNOWN_TOUCHED)
               example_state) =
  Ok (Some FILE_KNOWN_UNTOUCHED).
Proof.
  destruct (add_alert_do_db_then_check example_state example_db
              (FileInfo "a.exe" "h2") FILE_KNOWN_TOUCHED eq_refl) as [Hknown _].
  apply Hknown. by_computation.
Defined.

(** X11. After [add_file_to_db] has run on an existing [db.json], an
    observation of a path that had no record classifies as
    [FILE_KNOWN_UNTOUCHED]; for a path that had a record already, the
    record added at the end is never read: the observation classifies as
    it did against the registry of before. *)
Theorem add_file_to_db_then_check st db_data file_info :
  persisted st = Some db_data →
  (fi_path file_info ∉ path <$> db_data →
   result (check_file_status file_info) (exec (add_file_to_db file_info) st) =
   Ok (Some FILE_KNOWN_UNTOUCHED)) ∧
  (fi_path file_info ∈ path <$> db_data →
   result (check_file_status file_info) (exec (add_file_to_db file_info) st) =
   Ok (classify db_data file_info)).
Proof.
  intros Hp. unfold persisted in Hp.
  destruct (binsnitch_data st) as [files|] eqn:Hfiles; [|done].
  unfold exec, result. rewrite (add_file_to_db_run _ _ _ _ Hfiles Hp).
  cbn [snd]. erewrite check_file_status_run by reflexivity. cbn [fst].
  rewrite !classify_history, fmap_app, history_app.
  rewrite (bool_decide_eq_true_2 (_ ∈ _ ++ _))
    by (apply elem_of_app; right; simpl; left).
  split; intros Hin.
  - rewrite (bool_decide_eq_false_2 (_ ∈ path <$> db_data)) by done. simpl.
    rewrite (bool_decide_eq_true_2 (fi_path file_info = _)) by done.
    rewrite bool_decide_eq_true_2; [done|left].
  - by rewrite !(bool_decide_eq_true_2 (_ ∈ path <$> db_data)) by done.
Qed.

Lemma add_file_to_db_then_check_witness :
  result (check_file_status (FileInfo "c.bat" "h9"))
         (exec (add_file_to_db (FileInfo "c.bat" "h9")) example_state) =
  Ok (Some FILE_KNOWN_UNTOUCHED).
Proof.
  destruct (add_file_to_db_then_check example_state example_db
              (FileInfo "c.bat" "h9") eq_refl) as [Hnew _].
  apply Hnew. by_computation.
Defined.

(** X12. A registry with one record per path keeps this through
    [add_alert_do_db], for any arguments; through [add_file_to_db] it keeps
    it exactly when the observation classified as [FILE_UNKNOWN] against it:
    [add_file_to_db] does not look for a record of the path. *)
Theorem unique_paths_kept st db_data file_info :
  persisted st = Some db_data →
  NoDup (path <$> db_data) →
  (∀ status,
     NoDup (path <$> registry (exec (add_alert_do_db file_info status) st))) ∧
  (NoDup (path <$> registry (exec (add_file_to_db file_info) st)) ↔
   classify db_data file_info = Some FILE_UNKNOWN).
Proof.
  intros Hp Hnd. split.
  - intros status.
    rewrite (registry_run_op (AddAlert file_info status)), Hp.
    by rewrite record_after_paths.
  - rewrite (registry_run_op (AddFile file_info)), Hp, fmap_app.
    rewrite classify_history. simpl. rewrite NoDup_app. split.
    + intros (_ & Hdisj & _). rewrite bool_decide_eq_false_2; [done|].
      intros Hin. apply (Hdisj _ Hin). left.
    + case_bool_decide as Hin; [by case_bool_decide|]. intros _.
      split_and!; [done| |apply NoDup_singleton].
      by intros p Hp' ->%list_elem_of_singleton.
Qed.

Lemma unique_paths_kept_witness :
  ¬ NoDup (path <$> registry (exec (add_file_to_db (FileInfo "b.sh" "z"))
                                   example_state)).
Proof.
  destruct (unique_paths_kept example_state example_db (FileInfo "b.sh" "z")
              eq_refl example_db_NoDup) as [_ Hiff].
  intros Hnd. apply Hiff in Hnd. discriminate Hnd.
Defined.

(** X13. No history becomes empty: when every record of [db.json] has a
    digest, so does every record after any sequence of [add_alert_do_db]
    and [add_file_to_db] calls. *)
Theorem histories_stay_nonempty ops st :
  Forall (λ db_file, sha256 db_file ≠ []) (registry st) →
  Forall (λ db_file, sha256 db_file ≠ []) (registry (run_ops ops st)).
Proof.
  revert st. induction ops as [|op ops IH]; intros st Hall; [done|].
  rewrite run_ops_cons. apply IH. rewrite registry_run_op.
  unfold registry in Hall.
  destruct (persisted st) as [db_data|]; [|constructor]. simpl in Hall.
  destruct op as [file_info status|file_info].
  - apply Forall_fmap. eapply Forall_impl; [exact Hall|].
    intros x Hx. simpl.
    destruct (record_after_grows file_info x) as [->|(d & _ & ->)]; [done|].
    by destruct (sha256 x).
  - apply Forall_app. split; [done|]. by repeat constructor.
Qed.

Lemma histories_stay_nonempty_witness :
  Forall (λ db_file, sha256 db_file ≠ [])
    (registry (run_ops [AddFile (FileInfo "c.bat" "h9");
                        AddAlert (FileInfo "a.exe" "h2") FILE_KNOWN_TOUCHED]
                       example_state)).
Proof.
  apply histories_stay_nonempty. by repeat constructor.
Defined.

(** One operation on an existing [db.json]. *)
Lemma run_op_effects op st db_data :
  persisted st = Some db_data →
  result (run_op op) st = Ok tt ∧
  is_Some (persisted (exec (run_op op) st)) ∧
  cached_db (exec (run_op op) st) = persisted (exec (run_op op) st) ∧
  db_writes (exec (run_op op) st) = S (db_writes st) ∧
  sigint (exec (run_op op) st) = sigint st ∧
  alert_file (exec (run_op op) st) = alert_file st ∧
  stdout (exec (run_op op) st) = stdout st.
Proof.
  intros Hp. unfold persisted in Hp. unfold alert_file at 2.
  destruct (binsnitch_data st) as [files|] eqn:Hfiles; [|done].
  unfold result, exec.
  destruct op as [file_info status|file_info]; simpl.
  - rewrite (add_alert_do_db_run _ _ _ _ _ Hfiles Hp).
    split_and!; first [done|by eexists].
  - rewrite (add_file_to_db_run _ _ _ _ Hfiles Hp).
    split_and!; first [done|by eexists].
Qed.

(** X14. On an existing [db.json], every call of [add_alert_do_db] and
    [add_file_to_db] returns and rewrites the file once, also when nothing
    changes: after any sequence of calls the number of rewrites has grown
    by the number of calls, [cached_db] equals the registry on disk, and
    the disposition of SIGINT, [alerts.log] and the standard output are
    as before. *)
Theorem record_ops_effects ops st db_data :
  persisted st = Some db_data →
  ops ≠ [] →
  cached_db (run_ops ops st) = persisted (run_ops ops st) ∧
  is_Some (persisted (run_ops ops st)) ∧
  db_writes (run_ops ops st) = db_writes st + List.length ops ∧
  sigint (run_ops ops st) = sigint st ∧
  alert_file (run_ops ops st) = alert_file st ∧
  stdout (run_ops ops st) = stdout st.
Proof.
  intros Hp Hops. destruct ops as [|op ops]; [done|]. clear Hops.
  revert op st db_data Hp.
  induction ops as [|op' ops IH]; intros op st db_data Hp.
  - destruct (run_op_effects op st db_data Hp)
      as (_ & Hsome & Hc & Hw & Hs & Ha & Ho).
    cbn [run_ops foldl List.length]. split_and!; try done. lia.
  - destruct (run_op_effects op st db_data Hp)
      as (_ & [db' Hsome] & Hc & Hw & Hs & Ha & Ho).
    rewrite run_ops_cons.
    destruct (IH op' _ db' Hsome) as (Hc' & Hsome' & Hw' & Hs' & Ha' & Ho').
    split_and!; [done|done| |congruence..].
    rewrite Hw', Hw. simpl. lia.
Qed.

Lemma record_ops_effects_witness :
  db_writes (run_ops [AddAlert (FileInfo "b.sh" "x") FILE_KNOWN_UNTOUCHED;
                      AddAlert (FileInfo "b.sh" "x") FILE_KNOWN_UNTOUCHED]
                     example_state) = 2.
Proof.
  destruct (record_ops_effects
              [AddAlert (FileInfo "b.sh" "x") FILE_KNOWN_UNTOUCHED;
               AddAlert (FileInfo "b.sh" "x") FILE_KNOWN_UNTOUCHED]
              example_state example_db eq_refl)
    as (_ & _ & Hw & _); [done|].
  exact Hw.
Defined.

(** X15. Without [db.json], [add_alert_do_db] and [add_file_to_db] raise
    [FileNotFoundError] before they change anything: no sequence of calls
    creates the file, touches [cached_db] or logs. *)
Theorem record_ops_without_db_json ops st :
  persisted st = None →
  (∀ op, result (run_op op) st = Raise FileNotFoundError) ∧
  run_ops ops st = st.
Proof.
  intros Hp. split.
  - intros [file_info status|file_info]; unfold result; simpl.
    + by rewrite add_alert_do_db_missing.
    + by rewrite add_file_to_db_missing.
  - induction ops as [|op ops IH]; [done|].
    rewrite run_ops_cons.
    assert (exec (run_op op) st = st) as ->; [|done].
    unfold exec. destruct op as [file_info status|file_info]; simpl.
    + by rewrite add_alert_do_db_missing.
    + by rewrite add_file_to_db_missing.
Qed.

Lemma record_ops_without_db_json_witness :
  result (add_file_to_db (FileInfo "c.bat" "h9"))
         (State None (Some (DataFiles None None)) [] [] 0 default_int_handler
                (λ _, false) [] false) = Raise FileNotFoundError.
Proof.
  destruct (record_ops_without_db_json []
              (State None (Some (DataFiles None None)) [] [] 0
                     default_int_handler (λ _, false) [] false) eq_refl)
    as [Hraise _].
  exact (Hraise (AddFile (FileInfo "c.bat" "h9"))).
Defined.

(** The messages of one iteration are the alert of the status, for a record
    of the path. *)
Lemma messages_of_alert_line file_info status db_file :
  messages_of file_info status db_file =
  if bool_decide (path db_file = fi_path file_info)
  then alert_line file_info status else [].
Proof.
  unfold messages_of, alert_line. case_bool_decide as Hpath; [|done].
  rewrite Hpath. by destruct status.
Qed.

Lemma messages_of_all file_info status (db : list db_record) :
  List.concat (messages_of file_info status <$> db) =
  List.concat (replicate
    (List.length (filter (λ db_file, path db_file = fi_path file_info) db))
    (alert_line file_info status)).
Proof.
  induction db as [|x db IH]; [done|].
  rewrite fmap_cons, filter_cons. cbn [List.concat].
  rewrite IH, messages_of_alert_line.
  destruct (decide (path x = fi_path file_info)) as [Heq|Hne].
  - by rewrite bool_decide_eq_true_2.
  - by rewrite bool_decide_eq_false_2.
Qed.

(** With one record per path, a path with a record has one. *)
Lemma filter_path_unique (db : list db_record) p :
  NoDup (path <$> db) → p ∈ path <$> db →
  List.length (filter (λ db_file, path db_file = p) db) = 1.
Proof.
  induction db as [|x db IH]; [by intros _ ?%elem_of_nil|].
  rewrite fmap_cons, NoDup_cons, filter_cons. intros [Hx Hnd] Hin.
  destruct (decide (path x = p)) as [Heq|Hne].
  - simpl. f_equal.
    destruct (filter _ db) as [|y l] eqn:Hf; [done|]. exfalso.
    assert (y ∈ filter (λ db_file, path db_file = p) db) as Hy
      by (rewrite Hf; left).
    apply list_elem_of_filter in Hy as [Hpath Hy].
    apply Hx. rewrite Heq, <- Hpath. by apply list_elem_of_fmap_2.
  - apply IH; [done|].
    apply elem_of_cons in Hin as [?|?]; [congruence|done].
Qed.

(** X16. What [add_alert_do_db] logs on an existing [db.json]: the alert of
    the status ("New file detected: ..." for [FILE_UNKNOWN], "Modified file
    detected: ..." for [FILE_KNOWN_TOUCHED], nothing for
    [FILE_KNOWN_UNTOUCHED]) once for every record of the path, so exactly
    once when the registry has one record per path and the path is in it. *)
Theorem add_alert_do_db_alerts st db_data file_info status :
  persisted st = Some db_data →
  logged (exec (add_alert_do_db file_info status) st) =
    logged st ++
    List.concat (replicate
      (List.length (filter (λ db_file, path db_file = fi_path file_info) db_data))
      (alert_line file_info status)) ∧
  (NoDup (path <$> db_data) → fi_path file_info ∈ path <$> db_data →
   logged (exec (add_alert_do_db file_info status) st) =
     logged st ++ alert_line file_info status).
Proof.
  intros Hp. unfold persisted in Hp.
  destruct (binsnitch_data st) as [files|] eqn:Hfiles; [|done].
  unfold exec. rewrite (add_alert_do_db_run _ _ _ _ _ Hfiles Hp).
  simpl. rewrite messages_of_all. split; [done|].
  intros Hnd Hin. rewrite (filter_path_unique _ _ Hnd Hin). simpl.
  by rewrite app_nil_r.
Qed.

Lemma add_alert_do_db_alerts_witness :
  logged (exec (add_alert_do_db (FileInfo "b.sh" "z") FILE_UNKNOWN) example_state) =
  ["New file detected: b.sh - hash: z"].
Proof.
  destruct (add_alert_do_db_alerts example_state example_db
              (FileInfo "b.sh" "z") FILE_UNKNOWN eq_refl) as [_ Hone].
  apply Hone; [apply example_db_NoDup|by_computation].
Defined.

(** X17. The status given to [add_alert_do_db] decides the alert only: the
    registry written and the cache are the same for every status, so a
    digest that is new for the path is put in its history under
    [FILE_KNOWN_UNTOUCHED] too, without a line in the log. *)
Theorem add_alert_do_db_status_blind st file_info status1 status2 :
  persisted (exec (add_alert_do_db file_info status1) st) =
    persisted (exec (add_alert_do_db file_info status2) st) ∧
  cached_db (exec (add_alert_do_db file_info status1) st) =
    cached_db (exec (add_alert_do_db file_info status2) st) ∧
  ∀ db_data,
    persisted st = Some db_data →
    fi_path file_info ∈ path <$> db_data →
    fi_sha256 file_info ∉ history db_data (fi_path file_info) →
    history (registry (exec (add_alert_do_db file_info FILE_KNOWN_UNTOUCHED) st))
            (fi_path file_info) =
      history db_data (fi_path file_info) ++ [fi_sha256 file_info] ∧
    logged (exec (add_alert_do_db file_info FILE_KNOWN_UNTOUCHED) st) = logged st.
Proof.
  unfold exec, registry.
  destruct (persisted st) as [db_data|] eqn:Hp; cycle 1.
  { rewrite !add_alert_do_db_missing by done. done. }
  unfold persisted in Hp.
  destruct (binsnitch_data st) as [files|] eqn:Hfiles; [|done].
  rewrite !(add_alert_do_db_run _ _ _ _ _ Hfiles Hp).
  split_and!; [done..|].
  intros ? [= <-] Hin Hd. unfold persisted. simpl. split.
  - clear Hp. induction db_data as [|x db IH]; [by apply elem_of_nil in Hin|].
    rewrite fmap_cons. cbn [history] in *. rewrite record_after_path.
    case_bool_decide as Hpath.
    + unfold record_after. rewrite bool_decide_eq_true_2 by done.
      by rewrite bool_decide_eq_true_2.
    + apply IH; [|done].
      rewrite fmap_cons in Hin.
      apply elem_of_cons in Hin as [?|?]; [congruence|done].
  - rewrite messages_of_all. simpl.
    induction (List.length _) as [|k IHk]; simpl; [by rewrite app_nil_r|done].
Qed.

Lemma add_alert_do_db_status_blind_witness :
  history (registry (exec (add_alert_do_db (FileInfo "a.exe" "h2")
                                           FILE_KNOWN_UNTOUCHED) example_state))
          "a.exe" = ["h1"; "h2"] ∧
  logged (exec (add_alert_do_db (FileInfo "a.exe" "h2") FILE_KNOWN_UNTOUCHED)
               example_state) = [].
Proof.
  destruct (add_alert_do_db_status_blind example_state (FileInfo "a.exe" "h2")
              FILE_KNOWN_UNTOUCHED FILE_KNOWN_TOUCHED) as (_ & _ & Hnew).
  apply (Hnew example_db eq_refl); by_computation.
Defined.

(** * The watcher *)

Lemma notify_run n st :
  notify n st =
  (Ok tt,
   set_stdout (stdout st ++
               [Text (src_path (notified n) +:+ ChangeHandler_dir (notified n) +:+
                      ", " +:+ event_type (notified n))]) st).
Proof. by destruct n. Qed.

(** X18. The four methods of [ChangeHandler] only print: for any sequence of
    calls by the observer, one line per call goes to the standard output,
    "<src_path>, <event_type>" with " (DIR)" after the path of a directory,
    and nothing else of the state changes; no file is hashed, the registry,
    [cached_db] and the log stay as they are. *)
Theorem ChangeHandler_only_prints ns st :
  notify_all ns st =
  (Ok tt,
   set_stdout
     (stdout st ++
      ((λ n, Text (src_path (notified n) +:+ ChangeHandler_dir (notified n) +:+
                   ", " +:+ event_type (notified n))) <$> ns)) st) ∧
  binsnitch_data (exec (notify_all ns) st) = binsnitch_data st ∧
  cached_db (exec (notify_all ns) st) = cached_db st ∧
  logged (exec (notify_all ns) st) = logged st ∧
  db_writes (exec (notify_all ns) st) = db_writes st.
Proof.
  assert (notify_all ns st =
    (Ok tt,
     set_stdout
       (stdout st ++
        ((λ n, Text (src_path (notified n) +:+ ChangeHandler_dir (notified n) +:+
                     ", " +:+ event_type (notified n))) <$> ns)) st)) as Hrun.
  { revert st. induction ns as [|n ns IH]; intros st.
    - simpl. unfold ret. destruct st. unfold set_stdout. simpl.
      by rewrite app_nil_r.
    - cbn [notify_all]. unfold bind. rewrite notify_run, IH.
      destruct st. unfold set_stdout. simpl. by rewrite <- app_assoc. }
  unfold exec. rewrite Hrun. done.
Qed.


